(** * Snake engine of [games/snake.py]: embedding and verified properties

    The class [SnakeGame] is embedded as a record of its attributes and
    its methods as functions on that record.  Three effects of the
    Python code are made explicit:

    - exceptions: a method returns [result], [Raise IndexError] standing
      for the [IndexError] of [snake[0]], [list.pop] and [random.choice]
      on an empty sequence;
    - the clock: every reading of [time.time()] is an argument;
    - the [random] module: a stream of draws threaded through the calls.

    Timestamps are Python floats; they are embedded as exact rationals
    [Q], so rounding of binary64 arithmetic is not represented.  A test
    of a time difference against a threshold gives the same answer on
    binary64 and on [Q] unless the exact difference lies within one
    rounding error of the threshold.  The two tests of [update] are
    therefore also given on binary64 ([PrimFloat]), which settles the
    readings at which they differ, and a statement that hinges on a
    threshold takes its hypothesis on the side where rounding, being
    monotone, cannot change the answer.  Drawing ([cv2], [cvzone]) only
    reads the game attributes and is left out.

    The score the engine produces is kept by [UserStore] of
    [core/user_store.py], through [_maybe_update_high_score] of
    [app/main_window.py]; that path is embedded after the engine. *)

From Stdlib Require Import Floats.PrimFloat Floats.SpecFloat Floats.FloatOps.
From Stdlib Require Import ZArith QArith Qround Lia Lqa.
From stdpp Require Import base gmap sets list strings.

Local Open Scope Z_scope.

(** ** Results and exceptions *)

Inductive exn : Type := IndexError.

Inductive result (A : Type) : Type :=
| Ok (a : A)
| Raise (e : exn).
Arguments Ok {A} a.
Arguments Raise {A} e.

#[global] Instance result_ret : MRet result := fun A a => Ok a.
#[global] Instance result_bind : MBind result := fun A B f m =>
  match m with
  | Ok a => f a
  | Raise e => Raise e
  end.

(** ** The [random] module

    The generator is a stream of natural numbers; [random.choice(seq)]
    consumes one draw [r] and returns [seq[r mod len(seq)]], so every
    element of a non-empty [seq] can be returned. *)

Definition RNG : Type := nat → nat.

Definition rng_next (g : RNG) : nat * RNG := (g 0%nat, fun n => g (S n)).

Definition random_choice {A : Type} (seq : list A) (g : RNG) : result (A * RNG) :=
  match seq with
  | [] => Raise IndexError
  | _ :: _ =>
      let '(r, g') := rng_next g in
      match seq !! (r mod length seq)%nat with
      | Some a => Ok (a, g')
      | None => Raise IndexError
      end
  end.

(** ** Numbers *)

(** [x < y] on floats. *)
Definition Qlt_bool (x y : Q) : bool := negb (Qle_bool y x).

(** Python's [int(x)] on a float: truncation toward zero. *)
Definition py_int (q : Q) : Z := Z.quot (Qnum q) (Zpos (Qden q)).

(** ** The game object *)

Definition Cell : Type := Z * Z.

Record SnakeGame : Type := mkSnakeGame {
  game_w : Z;
  game_h : Z;
  grid_w : Z;
  grid_h : Z;
  score : Z;
  gameOver : bool;
  _eat_flash_until : Q;
  _last_move_t : Q;
  _dir : Cell;
  _pending_dir : Cell;
  snake : list Cell;
  _grow : Z;
  _paused : bool;
  _last_hand_seen_t : Q;
  food_tl : Cell
}.

(** Attribute assignments [self.f = v]. *)

Definition set_score (v : Z) (self : SnakeGame) : SnakeGame :=
  {| game_w := game_w self; game_h := game_h self; grid_w := grid_w self;
     grid_h := grid_h self; score := v; gameOver := gameOver self;
     _eat_flash_until := _eat_flash_until self; _last_move_t := _last_move_t self;
     _dir := _dir self; _pending_dir := _pending_dir self; snake := snake self;
     _grow := _grow self; _paused := _paused self;
     _last_hand_seen_t := _last_hand_seen_t self; food_tl := food_tl self |}.

Definition set_gameOver (v : bool) (self : SnakeGame) : SnakeGame :=
  {| game_w := game_w self; game_h := game_h self; grid_w := grid_w self;
     grid_h := grid_h self; score := score self; gameOver := v;
     _eat_flash_until := _eat_flash_until self; _last_move_t := _last_move_t self;
     _dir := _dir self; _pending_dir := _pending_dir self; snake := snake self;
     _grow := _grow self; _paused := _paused self;
     _last_hand_seen_t := _last_hand_seen_t self; food_tl := food_tl self |}.

Definition set_eat_flash_until (v : Q) (self : SnakeGame) : SnakeGame :=
  {| game_w := game_w self; game_h := game_h self; grid_w := grid_w self;
     grid_h := grid_h self; score := score self; gameOver := gameOver self;
     _eat_flash_until := v; _last_move_t := _last_move_t self; _dir := _dir self;
     _pending_dir := _pending_dir self; snake := snake self; _grow := _grow self;
     _paused := _paused self; _last_hand_seen_t := _last_hand_seen_t self;
     food_tl := food_tl self |}.

Definition set_last_move_t (v : Q) (self : SnakeGame) : SnakeGame :=
  {| game_w := game_w self; game_h := game_h self; grid_w := grid_w self;
     grid_h := grid_h self; score := score self; gameOver := gameOver self;
     _eat_flash_until := _eat_flash_until self; _last_move_t := v; _dir := _dir self;
     _pending_dir := _pending_dir self; snake := snake self; _grow := _grow self;
     _paused := _paused self; _last_hand_seen_t := _last_hand_seen_t self;
     food_tl := food_tl self |}.

Definition set_dir (v : Cell) (self : SnakeGame) : SnakeGame :=
  {| game_w := game_w self; game_h := game_h self; grid_w := grid_w self;
     grid_h := grid_h self; score := score self; gameOver := gameOver self;
     _eat_flash_until := _eat_flash_until self; _last_move_t := _last_move_t self;
     _dir := v; _pending_dir := _pending_dir self; snake := snake self;
     _grow := _grow self; _paused := _paused self;
     _last_hand_seen_t := _last_hand_seen_t self; food_tl := food_tl self |}.

Definition set_pending_dir (v : Cell) (self : SnakeGame) : SnakeGame :=
  {| game_w := game_w self; game_h := game_h self; grid_w := grid_w self;
     grid_h := grid_h self; score := score self; gameOver := gameOver self;
     _eat_flash_until := _eat_flash_until self; _last_move_t := _last_move_t self;
     _dir := _dir self; _pending_dir := v; snake := snake self; _grow := _grow self;
     _paused := _paused self; _last_hand_seen_t := _last_hand_seen_t self;
     food_tl := food_tl self |}.

Definition set_snake (v : list Cell) (self : SnakeGame) : SnakeGame :=
  {| game_w := game_w self; game_h := game_h self; grid_w := grid_w self;
     grid_h := grid_h self; score := score self; gameOver := gameOver self;
     _eat_flash_until := _eat_flash_until self; _last_move_t := _last_move_t self;
     _dir := _dir self; _pending_dir := _pending_dir self; snake := v;
     _grow := _grow self; _paused := _paused self;
     _last_hand_seen_t := _last_hand_seen_t self; food_tl := food_tl self |}.

Definition set_grow (v : Z) (self : SnakeGame) : SnakeGame :=
  {| game_w := game_w self; game_h := game_h self; grid_w := grid_w self;
     grid_h := grid_h self; score := score self; gameOver := gameOver self;
     _eat_flash_until := _eat_flash_until self; _last_move_t := _last_move_t self;
     _dir := _dir self; _pending_dir := _pending_dir self; snake := snake self;
     _grow := v; _paused := _paused self; _last_hand_seen_t := _last_hand_seen_t self;
     food_tl := food_tl self |}.

Definition set_paused (v : bool) (self : SnakeGame) : SnakeGame :=
  {| game_w := game_w self; game_h := game_h self; grid_w := grid_w self;
     grid_h := grid_h self; score := score self; gameOver := gameOver self;
     _eat_flash_until := _eat_flash_until self; _last_move_t := _last_move_t self;
     _dir := _dir self; _pending_dir := _pending_dir self; snake := snake self;
     _grow := _grow self; _paused := v; _last_hand_seen_t := _last_hand_seen_t self;
     food_tl := food_tl self |}.

Definition set_last_hand_seen_t (v : Q) (self : SnakeGame) : SnakeGame :=
  {| game_w := game_w self; game_h := game_h self; grid_w := grid_w self;
     grid_h := grid_h self; score := score self; gameOver := gameOver self;
     _eat_flash_until := _eat_flash_until self; _last_move_t := _last_move_t self;
     _dir := _dir self; _pending_dir := _pending_dir self; snake := snake self;
     _grow := _grow self; _paused := _paused self; _last_hand_seen_t := v;
     food_tl := food_tl self |}.

Definition set_food_tl (v : Cell) (self : SnakeGame) : SnakeGame :=
  {| game_w := game_w self; game_h := game_h self; grid_w := grid_w self;
     grid_h := grid_h self; score := score self; gameOver := gameOver self;
     _eat_flash_until := _eat_flash_until self; _last_move_t := _last_move_t self;
     _dir := _dir self; _pending_dir := _pending_dir self; snake := snake self;
     _grow := _grow self; _paused := _paused self;
     _last_hand_seen_t := _last_hand_seen_t self; food_tl := v |}.

(** Attributes assigned once in [__init__] and never again.
    [move_interval] is the rational 0.12; the attribute itself is the
    binary64 number nearest to it (see [move_due_binary64]). *)

Definition margin_x : Z := 70.
Definition margin_top : Z := 70.
Definition hand_space_bottom : Z := 150.
Definition margin_bottom : Z := 70 + hand_space_bottom.
Definition cell : Z := 26.
Definition food_cells : Z := 3.
Definition move_interval : Q := 0.12.

(** ** Food *)

(** [[(x0 + i, y0 + j) for i in range(k) for j in range(k)]] *)
Definition _food_cells_list (tl : Cell) : list Cell :=
  let '(x0, y0) := tl in
  let k := food_cells in
  i ← seqZ 0 k; j ← seqZ 0 k; [(x0 + i, y0 + j)].

(** The list [candidates] built by the two nested loops of
    [_random_food_location]. *)
Definition food_candidates (self : SnakeGame) : list Cell :=
  let k := food_cells in
  let snake_set : gset Cell := list_to_set (snake self) in
  x ← seqZ 0 (grid_w self - k + 1);
  y ← seqZ 0 (grid_h self - k + 1);
  let block := _food_cells_list (x, y) in
  if forallb (fun c => negb (bool_decide (c ∈ snake_set))) block
  then [(x, y)] else [].

Definition _random_food_location (self : SnakeGame) (g : RNG)
  : result (SnakeGame * RNG) :=
  let k := food_cells in
  if (grid_w self <? k) || (grid_h self <? k) then
    Ok (set_food_tl (Z.max 0 (grid_w self / 2), Z.max 0 (grid_h self / 2)) self, g)
  else
    let candidates := food_candidates self in
    match candidates with
    | [] =>
        Ok (set_food_tl (Z.max 0 ((grid_w self - k) / 2),
                         Z.max 0 ((grid_h self - k) / 2)) self, g)
    | _ :: _ =>
        '(tl, g') ← random_choice candidates g;
        Ok (set_food_tl tl self, g')
    end.

(** ** Construction and reset

    [reset] reads the clock twice ([t_move] for [_last_move_t], then
    [t_seen] for [_last_hand_seen_t]). *)

Definition reset (self : SnakeGame) (t_move t_seen : Q) (g : RNG)
  : result (SnakeGame * RNG) :=
  let cx := grid_w self / 2 in
  let cy := grid_h self / 2 in
  _random_food_location
    {| game_w := game_w self; game_h := game_h self;
       grid_w := grid_w self; grid_h := grid_h self;
       score := 0; gameOver := false;
       _eat_flash_until := 0; _last_move_t := t_move;
       _dir := (1, 0); _pending_dir := (1, 0);
       snake := [(cx, cy); (cx - 1, cy); (cx - 2, cy)];
       _grow := 0; _paused := false; _last_hand_seen_t := t_seen;
       food_tl := (0, 0) |} g.

(** [__init__] without the image loading; the attributes first assigned
    by [reset] hold the values [reset] gives them. *)
Definition __init__ (game_width game_height : Z) (t_init t_move t_seen : Q)
  (g : RNG) : result (SnakeGame * RNG) :=
  let usable_w := Z.max 1 (game_width - 2 * margin_x) in
  let usable_h := Z.max 1 (game_height - margin_top - margin_bottom) in
  reset
    {| game_w := game_width; game_h := game_height;
       grid_w := Z.max 8 (usable_w / cell); grid_h := Z.max 8 (usable_h / cell);
       score := 0; gameOver := false;
       _eat_flash_until := 0; _last_move_t := t_init;
       _dir := (1, 0); _pending_dir := (1, 0); snake := [];
       _grow := 0; _paused := false; _last_hand_seen_t := t_init;
       food_tl := (0, 0) |} t_move t_seen g.

(** ** Pointer to direction *)

Definition _board_origin (self : SnakeGame) : Z * Z :=
  let usable_w := game_w self - 2 * margin_x in
  let usable_h := game_h self - margin_top - margin_bottom in
  let bw := grid_w self * cell in
  let bh := grid_h self * cell in
  let ox := margin_x + Z.max 0 ((usable_w - bw) / 2) in
  let oy := margin_top + Z.max 0 ((usable_h - bh) / 2) in
  (ox, oy).

Definition _head_pixel_center (self : SnakeGame) : result (Z * Z) :=
  match snake self with
  | [] => Raise IndexError
  | (gx, gy) :: _ =>
      let '(ox, oy) := _board_origin self in
      Ok (py_int (inject_Z (ox + gx * cell) + inject_Z cell * 0.5),
          py_int (inject_Z (oy + gy * cell) + inject_Z cell * 0.5))
  end.

(** The deadzone [self.cell * 0.55]. *)
Definition dead : Q := inject_Z cell * 0.55.

Definition _update_direction_from_finger (self : SnakeGame) (finger_px : Z * Z)
  : result SnakeGame :=
  '(hx, hy) ← _head_pixel_center self;
  let '(fx, fy) := finger_px in
  let dxp := fx - hx in
  let dyp := fy - hy in
  if Qlt_bool (inject_Z (Z.abs dxp)) dead && Qlt_bool (inject_Z (Z.abs dyp)) dead
  then Ok self
  else
    let sx := if Qlt_bool (inject_Z (Z.abs dxp)) dead then 0
              else if 0 <? dxp then 1 else -1 in
    let sy := if Qlt_bool (inject_Z (Z.abs dyp)) dead then 0
              else if 0 <? dyp then 1 else -1 in
    let cand :=
      if negb (sx =? 0) && negb (sy =? 0) then (sx, sy)
      else if Z.abs dyp <=? Z.abs dxp
           then (if 0 <? dxp then (1, 0) else (-1, 0))
           else (if 0 <? dyp then (0, 1) else (0, -1)) in
    if (fst cand =? - fst (_dir self)) && (snd cand =? - snd (_dir self))
    then Ok self
    else Ok (set_pending_dir cand self).

(** ** One movement step: the body of the [for] loop of [update] *)

Inductive flow : Type := Continue | Break.

Definition move_once (now : Q) (self : SnakeGame) (g : RNG)
  : result (flow * SnakeGame * RNG) :=
  let self := set_dir (_pending_dir self) self in
  match snake self with
  | [] => Raise IndexError
  | (hx, hy) :: _ =>
      let nx := hx + fst (_dir self) in
      let ny := hy + snd (_dir self) in
      let new_head := (nx, ny) in
      if (nx <? 0) || (ny <? 0) || (grid_w self <=? nx) || (grid_h self <=? ny)
         || bool_decide (new_head ∈ snake self)
      then Ok (Break, set_gameOver true self, g)
      else
        let self := set_snake (new_head :: snake self) self in
        let food_cells_set : gset Cell :=
          list_to_set (_food_cells_list (food_tl self)) in
        '(self, g) ←
          (if bool_decide (new_head ∈ food_cells_set) then
             _random_food_location
               (set_eat_flash_until (now + 0.35)
                  (set_grow (_grow self + 2)
                     (set_score (score self + 1) self))) g
           else Ok (self, g));
        if 0 <? _grow self then
          Ok (Continue, set_grow (_grow self - 1) self, g)
        else
          match snake self with
          | [] => Raise IndexError
          | _ :: _ => Ok (Continue, set_snake (removelast (snake self)) self, g)
          end
  end.

(** [for _ in range(steps): ...], left early by [break]. *)
Fixpoint move_loop (steps : nat) (now : Q) (self : SnakeGame) (g : RNG)
  : result (SnakeGame * RNG) :=
  match steps with
  | O => Ok (self, g)
  | S n =>
      '(fl, self, g) ← move_once now self g;
      match fl with
      | Break => Ok (self, g)
      | Continue => move_loop n now self g
      end
  end.

(** ** The update *)

(** [min(int((now - self._last_move_t) / self.move_interval), 3)] *)
Definition catch_up_steps (now : Q) (self : SnakeGame) : Z :=
  Z.min (py_int ((now - _last_move_t self) / move_interval)) 3.

(** Lines 315-321: pause bookkeeping and direction refresh.  The test
    [now - self._last_hand_seen_t > 0.6] is taken on exact rationals;
    [absent_branch_binary64] is the same test on binary64. *)
Definition handle_pointer (self : SnakeGame) (now : Q)
  (currentHead : option (Z * Z)) : result SnakeGame :=
  match currentHead with
  | Some finger_px =>
      _update_direction_from_finger
        (set_paused false (set_last_hand_seen_t now self)) finger_px
  | None =>
      if Qlt_bool 0.6 (now - _last_hand_seen_t self)
      then Ok (set_paused true self)
      else Ok self
  end.

Definition update (self : SnakeGame) (now : Q) (currentHead : option (Z * Z))
  (g : RNG) : result (SnakeGame * RNG) :=
  if gameOver self then Ok (self, g)
  else
    self ← handle_pointer self now currentHead;
    if negb (_paused self) && Qle_bool move_interval (now - _last_move_t self)
    then
      let steps := catch_up_steps now self in
      '(self, g) ← move_loop (Z.to_nat steps) now self g;
      Ok (set_last_move_t now self, g)
    else Ok (self, g).

(** A session: a sequence of [update] calls, each with its clock reading
    and pointer sample; it stops at the first exception. *)
Fixpoint run (self : SnakeGame) (calls : list (Q * option (Z * Z))) (g : RNG)
  : result (SnakeGame * RNG) :=
  match calls with
  | [] => Ok (self, g)
  | (now, currentHead) :: rest =>
      '(self, g) ← update self now currentHead g;
      run self rest g
  end.

(** ** Vocabulary for the statements *)

(** The cell the head enters on the next step: [(hx + dx, hy + dy)] for
    the pending direction, which the step adopts first. *)
Definition next_head (self : SnakeGame) : option Cell :=
  match snake self with
  | [] => None
  | (hx, hy) :: _ =>
      Some (hx + fst (_pending_dir self), hy + snd (_pending_dir self))
  end.

(** The collision test of line 333 on a cell. *)
Definition collides (self : SnakeGame) (c : Cell) : bool :=
  (fst c <? 0) || (snd c <? 0) || (grid_w self <=? fst c) || (grid_h self <=? snd c)
  || bool_decide (c ∈ snake self).

(** The food test of lines 339-340 on a cell. *)
Definition in_food (self : SnakeGame) (c : Cell) : bool :=
  bool_decide (c ∈ (list_to_set (_food_cells_list (food_tl self)) : gset Cell)).

(** What a step that does not collide does to the attributes, [c] being
    the new head. *)
Definition step_effect (self : SnakeGame) (c : Cell) (self' : SnakeGame) : Prop :=
  let eaten := in_food self c in
  let credit := if eaten then _grow self + 2 else _grow self in
  snake self' = (if 0 <? credit then c :: snake self
                 else removelast (c :: snake self))
  ∧ _grow self' = (if 0 <? credit then credit - 1 else credit)
  ∧ score self' = (if eaten then score self + 1 else score self)
  ∧ (eaten = false → food_tl self' = food_tl self)
  ∧ _dir self' = _pending_dir self
  ∧ _pending_dir self' = _pending_dir self
  ∧ gameOver self' = gameOver self
  ∧ _paused self' = _paused self
  ∧ _last_move_t self' = _last_move_t self
  ∧ _last_hand_seen_t self' = _last_hand_seen_t self
  ∧ grid_w self' = grid_w self
  ∧ grid_h self' = grid_h self.

(** ** Concrete games

    A 640 x 480 playfield gives a 19 x 8 grid; after [__init__] the
    snake lies at [(9,4); (8,4); (7,4)] heading right. *)

Definition rng_const (r : nat) : RNG := fun _ => r.

Definition fresh_game (food : Cell) : SnakeGame :=
  {| game_w := 640; game_h := 480; grid_w := 19; grid_h := 8;
     score := 0; gameOver := false;
     _eat_flash_until := 0; _last_move_t := 0;
     _dir := (1, 0); _pending_dir := (1, 0);
     snake := [(9, 4); (8, 4); (7, 4)];
     _grow := 0; _paused := false; _last_hand_seen_t := 0;
     food_tl := food |}.

(** A bent snake whose head is diagonally adjacent to its tail, about to
    move up-left onto the tail cell. *)
Definition bent_game : SnakeGame :=
  set_pending_dir (-1, -1)
    (set_dir (0, 1) (set_snake [(9, 4); (9, 3); (8, 3)] (fresh_game (0, 0)))).

(** A game that has ended against the right wall. *)
Definition ended_game : SnakeGame :=
  set_gameOver true
    (set_snake [(18, 4); (17, 4); (16, 4)] (fresh_game (0, 0))).

(** A game paused with the head against the right wall: the fresh game
    after three calls with the pointer to the right, at readings 0.4,
    0.8 and 1.2, and a call without a pointer at reading 2. *)
Definition paused_at_wall : SnakeGame :=
  {| game_w := 640; game_h := 480; grid_w := 19; grid_h := 8;
     score := 0; gameOver := false;
     _eat_flash_until := 0; _last_move_t := 1.2;
     _dir := (1, 0); _pending_dir := (1, 0);
     snake := [(18, 4); (17, 4); (16, 4)];
     _grow := 0; _paused := true; _last_hand_seen_t := 1.2;
     food_tl := (0, 0) |}.

(** ** Reachable states *)

(** The states a game object goes through: [reset] (called by
    [__init__] and on restart), then any calls of [update]. *)
Inductive reachable : SnakeGame → Prop :=
| reachable_reset (self : SnakeGame) (t_move t_seen : Q) (g : RNG)
    (self' : SnakeGame) (g' : RNG) :
    reset self t_move t_seen g = Ok (self', g') → reachable self'
| reachable_update (self : SnakeGame) (now : Q) (p : option (Z * Z)) (g : RNG)
    (self' : SnakeGame) (g' : RNG) :
    reachable self → update self now p g = Ok (self', g') → reachable self'.

(** The same with a clock that never runs backwards: [reachable_at s t]
    when [s] is reached and [t] is the latest clock reading. *)
Inductive reachable_at : SnakeGame → Q → Prop :=
| at_reset (self : SnakeGame) (t_move t_seen : Q) (g : RNG)
    (self' : SnakeGame) (g' : RNG) :
    (t_move <= t_seen)%Q →
    reset self t_move t_seen g = Ok (self', g') → reachable_at self' t_seen
| at_update (self : SnakeGame) (t now : Q) (p : option (Z * Z)) (g : RNG)
    (self' : SnakeGame) (g' : RNG) :
    reachable_at self t → (t <= now)%Q →
    update self now p g = Ok (self', g') → reachable_at self' now.

(** What holds of every reachable state. *)
Definition sound (self : SnakeGame) : Prop :=
  snake self ≠ []
  ∧ NoDup (snake self)
  ∧ (gameOver self = true → _paused self = false).

(** [applied n now s g s' g']: [n] successive steps of the loop, none of
    which collides, lead from [s] to [s']. *)
Inductive applied (now : Q) : nat → SnakeGame → RNG → SnakeGame → RNG → Prop :=
| applied_O (s : SnakeGame) (g : RNG) : applied now 0 s g s g
| applied_S (n : nat) (s : SnakeGame) (g : RNG) (s1 : SnakeGame) (g1 : RNG)
    (s' : SnakeGame) (g' : RNG) :
    move_once now s g = Ok (Continue, s1, g1) →
    applied now n s1 g1 s' g' → applied now (S n) s g s' g'.

(** What a loop over [range(n)] has done when it returns [s']: all [n]
    steps, or fewer followed by the colliding step that set [gameOver]. *)
Definition loop_outcome (now : Q) (n : nat) (s : SnakeGame) (g : RNG)
  (s' : SnakeGame) (g' : RNG) : Prop :=
  (applied now n s g s' g' ∧ gameOver s' = gameOver s)
  ∨ (∃ k sk gk, (k < n)%nat ∧ applied now k s g sk gk
                ∧ move_once now sk gk = Ok (Break, s', g')
                ∧ gameOver s' = true).

(** ** Vocabulary for food placement and direction *)

(** The block with top-left [tl] lies inside the grid. *)
Definition block_inside (self : SnakeGame) (tl : Cell) : Prop :=
  ∀ c, c ∈ _food_cells_list tl →
       0 ≤ fst c < grid_w self ∧ 0 ≤ snd c < grid_h self.

(** The block with top-left [tl] shares no cell with the body. *)
Definition block_free (self : SnakeGame) (tl : Cell) : Prop :=
  ∀ c, c ∈ _food_cells_list tl → c ∉ snake self.

(** Top-left of the centre block of the grid. *)
Definition center_block (self : SnakeGame) : Cell :=
  ((grid_w self - food_cells) / 2, (grid_h self - food_cells) / 2).

(** An 8 x 8 board on which the body leaves no room for a 3 x 3 block:
    every block meets column 2 or 5 and row 2 or 5. *)
Definition blocked_game : SnakeGame :=
  {| game_w := 348; game_h := 498; grid_w := 8; grid_h := 8;
     score := 4; gameOver := false;
     _eat_flash_until := 0; _last_move_t := 0;
     _dir := (0, -1); _pending_dir := (0, -1);
     snake := [(5, 2); (5, 3); (5, 4); (5, 5); (4, 5); (3, 5); (2, 5);
               (2, 4); (2, 3); (2, 2)];
     _grow := 0; _paused := false; _last_hand_seen_t := 0;
     food_tl := (0, 0) |}.

(** The anti-reversal rule on a candidate direction: rejected when it is
    the exact negation of [_dir], adopted as [_pending_dir] otherwise. *)
Definition adopt_candidate (self : SnakeGame) (cand : Cell) : result SnakeGame :=
  if decide (cand = (- fst (_dir self), - snd (_dir self)))
  then Ok self
  else Ok (set_pending_dir cand self).

(** Below the deadzone on one axis. *)
Definition within_deadzone (d : Z) : Prop := (inject_Z (Z.abs d) < dead)%Q.

(** [s'] differs from [self] at most in [_pending_dir]. *)
Definition same_but_pending (self s' : SnakeGame) : Prop :=
  game_w s' = game_w self ∧ game_h s' = game_h self
  ∧ grid_w s' = grid_w self ∧ grid_h s' = grid_h self
  ∧ score s' = score self ∧ gameOver s' = gameOver self
  ∧ _eat_flash_until s' = _eat_flash_until self
  ∧ _last_move_t s' = _last_move_t self
  ∧ _dir s' = _dir self ∧ snake s' = snake self ∧ _grow s' = _grow self
  ∧ _paused s' = _paused self
  ∧ _last_hand_seen_t s' = _last_hand_seen_t self
  ∧ food_tl s' = food_tl self.

(** [s'] differs from [self] at most in [food_tl]. *)
Definition same_but_food (self s' : SnakeGame) : Prop :=
  game_w s' = game_w self ∧ game_h s' = game_h self
  ∧ grid_w s' = grid_w self ∧ grid_h s' = grid_h self
  ∧ score s' = score self ∧ gameOver s' = gameOver self
  ∧ _eat_flash_until s' = _eat_flash_until self
  ∧ _last_move_t s' = _last_move_t self
  ∧ _dir s' = _dir self ∧ _pending_dir s' = _pending_dir self
  ∧ snake s' = snake self ∧ _grow s' = _grow self
  ∧ _paused s' = _paused self
  ∧ _last_hand_seen_t s' = _last_hand_seen_t self.

(** [s'] differs from [self] at most in [_paused]. *)
Definition same_but_paused (self s' : SnakeGame) : Prop :=
  game_w s' = game_w self ∧ game_h s' = game_h self
  ∧ grid_w s' = grid_w self ∧ grid_h s' = grid_h self
  ∧ score s' = score self ∧ gameOver s' = gameOver self
  ∧ _eat_flash_until s' = _eat_flash_until self
  ∧ _last_move_t s' = _last_move_t self
  ∧ _dir s' = _dir self ∧ _pending_dir s' = _pending_dir self
  ∧ snake s' = snake self ∧ _grow s' = _grow self
  ∧ _last_hand_seen_t s' = _last_hand_seen_t self
  ∧ food_tl s' = food_tl self.

(** ** Drawing coordinates *)

(** Pixel centre of a grid cell: [int(ox + x * cell + cell * 0.5)]. *)
Definition _cell_center (ox oy : Z) (cell_xy : Cell) : Z * Z :=
  let '(x, y) := cell_xy in
  (py_int (inject_Z (ox + x * cell) + inject_Z cell * 0.5),
   py_int (inject_Z (oy + y * cell) + inject_Z cell * 0.5)).

(** Top-left pixel of a grid cell: [int(ox + x * cell)], all integers. *)
Definition _cell_topleft (ox oy : Z) (cell_xy : Cell) : Z * Z :=
  let '(x, y) := cell_xy in
  (ox + x * cell, oy + y * cell).

(** ** Vocabulary for the invariants of a game *)

(** The attributes [reset] assigns before it places the food. *)
Definition reset_fields (self : SnakeGame) (t_move t_seen : Q) : SnakeGame :=
  {| game_w := game_w self; game_h := game_h self;
     grid_w := grid_w self; grid_h := grid_h self;
     score := 0; gameOver := false;
     _eat_flash_until := 0; _last_move_t := t_move;
     _dir := (1, 0); _pending_dir := (1, 0);
     snake := [(grid_w self / 2, grid_h self / 2);
               (grid_w self / 2 - 1, grid_h self / 2);
               (grid_w self / 2 - 2, grid_h self / 2)];
     _grow := 0; _paused := false; _last_hand_seen_t := t_seen;
     food_tl := (0, 0) |}.

(** One of the eight unit directions. *)
Definition unit_dir (d : Cell) : Prop :=
  -1 ≤ fst d ≤ 1 ∧ -1 ≤ snd d ≤ 1 ∧ d ≠ (0, 0).

(** The exact negation of a direction. *)
Definition opposite (d : Cell) : Cell := (- fst d, - snd d).

(** [a] is one king move away from [b]. *)
Definition adjacent (a b : Cell) : Prop :=
  unit_dir (fst a - fst b, snd a - snd b).

(** Every cell of the body is one king move away from the next. *)
Fixpoint chain (body : list Cell) : Prop :=
  match body with
  | a :: (b :: _) as rest => adjacent a b ∧ chain rest
  | _ => True
  end.

(** A cell of the grid. *)
Definition on_board (self : SnakeGame) (c : Cell) : Prop :=
  0 ≤ fst c < grid_w self ∧ 0 ≤ snd c < grid_h self.

(** A cell moved [k] times along a direction. *)
Definition advance (c : Cell) (k : Z) (d : Cell) : Cell :=
  (fst c + k * fst d, snd c + k * snd d).

(** A game that has eaten once: the fresh game with food at [(10,3)]
    after a step onto the food and a step up-right. *)
Definition fed_game : SnakeGame :=
  {| game_w := 640; game_h := 480; grid_w := 19; grid_h := 8;
     score := 1; gameOver := false;
     _eat_flash_until := 0.15 + 0.35; _last_move_t := 0.3;
     _dir := (1, -1); _pending_dir := (1, -1);
     snake := [(11, 3); (10, 4); (9, 4); (8, 4); (7, 4)];
     _grow := 0; _paused := false; _last_hand_seen_t := 0.3;
     food_tl := (0, 0) |}.

(** ** The score store of [core/user_store.py]

    [UserStore.data] is whatever [json.load] returned, normalised by
    [load] to a dict.  Values are embedded as a JSON tree; a float is an
    exact rational (the literals [NaN] and [Infinity] are not
    represented).  [save] only writes the file and swallows every
    error, so it does not appear.  The store raises other exceptions
    than the engine; they have their own result type.  An exception
    aborts the call: the state it leaves behind is not represented. *)

#[warnings="-register-all"] Inductive json : Type :=
| JNull
| JBool (b : bool)
| JInt (z : Z)
| JFloat (q : Q)
| JStr (s : string)
| JArr (l : list json)
| JObj (m : gmap string json).

Inductive py_error : Type := KeyError | AttributeError | TypeError | ValueError.

Inductive outcome (A : Type) : Type :=
| Return (a : A)
| Throw (e : py_error).
Arguments Return {A} a.
Arguments Throw {A} e.

#[global] Instance outcome_ret : MRet outcome := fun A a => Return a.
#[global] Instance outcome_bind : MBind outcome := fun A B f m =>
  match m with
  | Return a => f a
  | Throw e => Throw e
  end.

(** [bool(v)] *)
Definition truthy (v : json) : bool :=
  match v with
  | JNull => false
  | JBool b => b
  | JInt z => negb (z =? 0)
  | JFloat q => negb (Qeq_bool q 0)
  | JStr s => negb (String.eqb s "")
  | JArr l => match l with [] => false | _ :: _ => true end
  | JObj m => negb (bool_decide (m = ∅))
  end.

(** [v or 0] *)
Definition or_zero (v : json) : json := if truthy v then v else JInt 0.

(** [if username:] on an [Optional[str]] *)
Definition named (username : option string) : option string :=
  match username with
  | Some u => if String.eqb u "" then None else Some u
  | None => None
  end.

(** The dict [{"high_scores": {}}]. *)
Definition empty_bucket : json := JObj {["high_scores" := JObj ∅]}.

Section ScoreStore.

(** [int(s)] on a string: [None] stands for [ValueError]. *)
Context (int_of_str : string → option Z).

(** [int(v)] *)
Definition to_int (v : json) : outcome Z :=
  match v with
  | JNull => Throw TypeError
  | JBool b => Return (if b then 1 else 0)
  | JInt z => Return z
  | JFloat q => Return (py_int q)
  | JStr s => match int_of_str s with
              | Some z => Return z
              | None => Throw ValueError
              end
  | JArr _ => Throw TypeError
  | JObj _ => Throw TypeError
  end.

(** [d.get(key, 0)] *)
Definition get_or_zero (d : json) (key : string) : outcome json :=
  match d with
  | JObj m => Return (default (JInt 0) (m !! key))
  | _ => Throw AttributeError
  end.

(** [_user_bucket]: the bucket and the store after [setdefault]. *)
Definition _user_bucket (data : gmap string json) (username : option string)
  : outcome (json * gmap string json) :=
  match named username with
  | Some u =>
      match data !! "users" with
      | None => Throw KeyError
      | Some (JObj users) =>
          match users !! u with
          | Some bucket => Return (bucket, data)
          | None =>
              Return (empty_bucket,
                      <["users" := JObj (<[u := empty_bucket]> users)]> data)
          end
      | Some _ => Throw AttributeError
      end
  | None =>
      match data !! "guest" with
      | Some bucket => Return (bucket, data)
      | None => Return (empty_bucket, <["guest" := empty_bucket]> data)
      end
  end.

(** [b] is the bucket of [u] in [d], with nothing left to insert. *)
Definition in_store (d : gmap string json) (u : option string) (b : json) : Prop :=
  _user_bucket d u = Return (b, d).

(** The bucket is an object inside [data]: assigning into it is
    assigning at its place in the store. *)
Definition put_bucket (data : gmap string json) (username : option string)
  (bucket : json) : gmap string json :=
  match named username with
  | Some u =>
      match data !! "users" with
      | Some (JObj users) => <["users" := JObj (<[u := bucket]> users)]> data
      | _ => data
      end
  | None => <["guest" := bucket]> data
  end.

(** [hs = bucket.setdefault("high_scores", {})]: the value and the
    bucket after the call. *)
Definition bucket_scores (bucket : json) : outcome (json * json) :=
  match bucket with
  | JObj b =>
      match b !! "high_scores" with
      | Some hs => Return (hs, bucket)
      | None => Return (JObj ∅, JObj (<["high_scores" := JObj ∅]> b))
      end
  | _ => Throw AttributeError
  end.

Definition get_high_score (data : gmap string json) (username : option string)
  (mode : string) : outcome (Z * gmap string json) :=
  '(bucket, data) ← _user_bucket data username;
  '(hs, bucket) ← bucket_scores bucket;
  let data := put_bucket data username bucket in
  match get_or_zero hs mode ≫= to_int with
  | Return z => Return (z, data)
  | Throw _ => Return (0, data)
  end.

Definition set_high_score (data : gmap string json) (username : option string)
  (mode : string) (score : Z) : outcome (Z * gmap string json) :=
  '(bucket, data) ← _user_bucket data username;
  '(hs, bucket) ← bucket_scores bucket;
  let data := put_bucket data username bucket in
  v ← get_or_zero hs mode;
  current ← to_int (or_zero v);
  if current <? score then
    match hs, bucket with
    | JObj m, JObj b =>
        let hs := JObj (<[mode := JInt score]> m) in
        Return (score,
                put_bucket data username (JObj (<["high_scores" := hs]> b)))
    | _, _ => Throw AttributeError
    end
  else Return (current, data).

(** The attributes of the main window that
    [_maybe_update_high_score] reads and writes. *)
Record ScoreBoard : Type := mkScoreBoard {
  username : option string;
  high_scores : gmap string Z;
  user_store : gmap string json
}.

Definition scored_modes : list string := ["quiz"; "snake"; "spelling"; "mcq"].

Definition _maybe_update_high_score (self : ScoreBoard) (mode : string)
  (score : Z) : outcome ScoreBoard :=
  if negb (bool_decide (mode ∈ scored_modes)) then Return self
  else
    let score_i := score in
    let prev := default 0 (high_scores self !! mode) in
    if prev <? score_i then
      '(best, data) ← set_high_score (user_store self) (username self) mode score_i;
      Return {| username := username self;
                high_scores := <[mode := best]> (high_scores self);
                user_store := data |}
    else Return self.

End ScoreStore.

(** A store as [register] and [set_high_score] leave it, and a parser
    of integers that accepts no string (all the examples need). *)
Definition no_int_of_str : string → option Z := fun _ => None.

Definition sample_store : gmap string json :=
  {[ "users" := JObj {[ "alice" := JObj {[ "salt" := JStr "00";
                                           "hash" := JStr "ab";
                                           "iterations" := JInt 150000;
                                           "high_scores" :=
                                             JObj {[ "snake" := JInt 10;
                                                     "quiz" := JInt 5 ]} ]} ]};
     "guest" := JObj {[ "high_scores" := JObj ∅ ]} ]}.

(** ** The two time tests of [update] on binary64

    The same tests as the interpreter computes them: the readings and
    the constants are binary64 numbers, the subtraction rounds to
    nearest. *)

(** Lines 319-321: the value of [_paused] after a call without a
    pointer, [if now - self._last_hand_seen_t > 0.6: self._paused = True]. *)
#[warnings="-inexact-float"] Definition absent_branch_binary64 (paused : bool) (last_hand_seen_t now : float)
  : bool :=
  if PrimFloat.ltb 0.6%float (PrimFloat.sub now last_hand_seen_t) then true
  else paused.

(** Line 323: [(not self._paused) and (now - self._last_move_t >=
    self.move_interval)], with [move_interval = 0.12] of line 50. *)
#[warnings="-inexact-float"] Definition move_due_binary64 (paused : bool) (last_move_t now : float) : bool :=
  negb paused && PrimFloat.leb 0.12%float (PrimFloat.sub now last_move_t).

(** The rational a finite binary64 number stands for. *)
Definition binary64_value (x : float) : option Q :=
  match Prim2SF x with
  | S754_zero _ => Some 0%Q
  | S754_finite s m e =>
      Some (inject_Z (if s then Z.neg m else Z.pos m) * 2 ^ e)%Q
  | _ => None
  end.

(** Clock readings written [0.03], [0.63], [0.2] and [0.32]. *)
#[warnings="-inexact-float"] Definition reading_0_03 : float := 0.03%float.
#[warnings="-inexact-float"] Definition reading_0_63 : float := 0.63%float.
#[warnings="-inexact-float"] Definition reading_0_2 : float := 0.2%float.
#[warnings="-inexact-float"] Definition reading_0_32 : float := 0.32%float.

(** * Properties *)

(** ** Arithmetic of the embedding *)

Lemma Qlt_bool_iff (x y : Q) : Qlt_bool x y = true ↔ (x < y)%Q.
Proof.
  unfold Qlt_bool. rewrite negb_true_iff, <- not_true_iff_false, Qle_bool_iff.
  split; [apply Qnot_le_lt | apply Qlt_not_le].
Qed.

Lemma Qlt_bool_false (x y : Q) : Qlt_bool x y = false ↔ (y <= x)%Q.
Proof. unfold Qlt_bool. rewrite negb_false_iff. apply Qle_bool_iff. Qed.

Lemma py_int_floor (q : Q) : (0 <= q)%Q → py_int q = Qfloor q.
Proof.
  destruct q as [n d]. unfold Qle, py_int, Qfloor. simpl. intros H.
  apply Z.quot_div_nonneg; lia.
Qed.

Lemma py_int_quotient_ge (e : Q) (k : Z) :
  0 ≤ k → (inject_Z k * move_interval <= e)%Q → k ≤ py_int (e / move_interval).
Proof.
  intros Hk H.
  assert (Hq : (inject_Z k <= e / move_interval)%Q).
  { apply Qle_shift_div_l; [reflexivity | exact H]. }
  rewrite py_int_floor.
  - rewrite <- (Qfloor_Z k). by apply Qfloor_resp_le.
  - eapply Qle_trans; [| exact Hq].
    change 0%Q with (inject_Z 0). rewrite <- Zle_Qle. lia.
Qed.

Lemma catch_up_steps_le (now : Q) (self : SnakeGame) : catch_up_steps now self ≤ 3.
Proof. unfold catch_up_steps. apply Z.le_min_r. Qed.

Lemma catch_up_steps_full (now : Q) (self : SnakeGame) :
  (3 * move_interval <= now - _last_move_t self)%Q → catch_up_steps now self = 3.
Proof.
  intros H. unfold catch_up_steps. apply Z.min_r.
  apply py_int_quotient_ge; [lia | exact H].
Qed.

Lemma catch_up_steps_pos (now : Q) (self : SnakeGame) :
  (move_interval <= now - _last_move_t self)%Q → 1 ≤ catch_up_steps now self.
Proof.
  intros H. unfold catch_up_steps. apply Z.min_glb; [| lia].
  apply py_int_quotient_ge; [lia |]. by rewrite Qmult_1_l.
Qed.

(** ** Exceptions: where the code cannot raise *)

Lemma random_choice_ok {A : Type} (seq : list A) (g : RNG) :
  seq ≠ [] → ∃ a, random_choice seq g = Ok (a, snd (rng_next g)) ∧ a ∈ seq.
Proof.
  intros Hne. destruct seq as [| a0 seq']; [done |].
  unfold random_choice. cbn [rng_next snd].
  set (l := a0 :: seq').
  assert (Hlt : (g 0%nat mod length l < length l)%nat).
  { apply Nat.mod_upper_bound. done. }
  destruct (lookup_lt_is_Some_2 l _ Hlt) as [a Ha].
  exists a. rewrite Ha. split; [done |]. by eapply list_elem_of_lookup_2.
Qed.

Lemma _random_food_location_ok (self : SnakeGame) (g : RNG) :
  ∃ tl g', _random_food_location self g = Ok (set_food_tl tl self, g').
Proof.
  unfold _random_food_location.
  destruct ((grid_w self <? food_cells) || (grid_h self <? food_cells)); [by eauto |].
  destruct (food_candidates self) as [| c cs] eqn:Hc; [by eauto |].
  destruct (random_choice_ok (c :: cs) g) as (a & Ha & _); [done |].
  rewrite Ha. cbn. by eauto.
Qed.

(** ** One step *)

Lemma move_once_collide (now : Q) (self : SnakeGame) (g : RNG) (c : Cell) :
  next_head self = Some c → collides self c = true →
  move_once now self g
  = Ok (Break, set_gameOver true (set_dir (_pending_dir self) self), g).
Proof.
  unfold next_head, move_once, collides. cbn [snake set_dir].
  destruct (snake self) as [| [hx hy] tl] eqn:Hs; [done |].
  intros [= <-] Hc.
  match goal with |- (if ?b then _ else _) = _ =>
    assert (b = true) as -> by exact Hc end.
  done.
Qed.

Lemma move_once_advance (now : Q) (self : SnakeGame) (g : RNG) (c : Cell) :
  next_head self = Some c → collides self c = false →
  ∃ self' g', move_once now self g = Ok (Continue, self', g')
              ∧ step_effect self c self'
              ∧ (in_food self c = false → g' = g).
Proof.
  unfold next_head, move_once, step_effect, collides. cbn [snake set_dir].
  destruct (snake self) as [| [hx hy] tl] eqn:Hs; [done |].
  intros [= <-] Hc.
  set (c := (hx + fst (_pending_dir self), hy + snd (_pending_dir self))).
  match goal with |- ∃ _ _, (if ?b then _ else _) = _ ∧ _ =>
    assert (b = false) as -> by exact Hc end.
  match goal with |- context [mbind _ (if ?b then _ else _)] =>
    change b with (in_food self c) end.
  destruct (in_food self c); cbn.
  - match goal with |- context [_random_food_location ?s ?g] =>
      destruct (_random_food_location_ok s g) as (tl' & g' & ->) end.
    cbn. destruct (0 <? _grow self + 2); cbn; rewrite ?Hs;
      eexists _, _; (split; [reflexivity |]); cbn; rewrite ?Hs; by repeat split.
  - destruct (0 <? _grow self); cbn; rewrite ?Hs;
      eexists _, _; (split; [reflexivity |]); cbn; rewrite ?Hs; by repeat split.
Qed.

Lemma fresh_game_init :
  __init__ 640 480 0 0 0 (rng_const 48) = Ok (fresh_game (10, 3), rng_const 48).
Proof. vm_compute. reflexivity. Qed.

Lemma removelast_cons_length {A : Type} (c : A) (l : list A) :
  length (removelast (c :: l)) = length l.
Proof. rewrite removelast_firstn_len, length_take. cbn [length]. lia. Qed.

Lemma set_pending_dir_same (self : SnakeGame) :
  set_pending_dir (_pending_dir self) self = self.
Proof. by destruct self. Qed.

(** ** Pointer handling touches only the pause flag, the signal
    timestamp and the pending direction *)

Lemma _head_pixel_center_ok (self : SnakeGame) :
  snake self ≠ [] → ∃ c, _head_pixel_center self = Ok c.
Proof.
  unfold _head_pixel_center. destruct (snake self) as [| [gx gy] tl]; [done |].
  intros _. destruct (_board_origin self). by eauto.
Qed.

Lemma _update_direction_from_finger_frame (self : SnakeGame) (p : Z * Z)
  (self' : SnakeGame) :
  _update_direction_from_finger self p = Ok self' →
  ∃ d, self' = set_pending_dir d self.
Proof.
  unfold _update_direction_from_finger.
  destruct (_head_pixel_center self) as [[hx hy] | e]; [| done].
  cbn. destruct p as [fx fy].
  repeat match goal with
         | |- context [if ?b then Ok _ else _] => destruct b
         end;
  intros [= <-]; first [by eexists | exists (_pending_dir self); by rewrite set_pending_dir_same].
Qed.

Lemma _update_direction_from_finger_ok (self : SnakeGame) (p : Z * Z) :
  snake self ≠ [] → ∃ self', _update_direction_from_finger self p = Ok self'.
Proof.
  intros Hne. unfold _update_direction_from_finger.
  destruct (_head_pixel_center_ok self Hne) as [[hx hy] ->].
  cbn. destruct p as [fx fy].
  repeat match goal with
         | |- context [if ?b then Ok _ else _] => destruct b
         end; by eexists.
Qed.

Lemma handle_pointer_frame (self : SnakeGame) (now : Q) (p : option (Z * Z))
  (self' : SnakeGame) :
  handle_pointer self now p = Ok self' →
  snake self' = snake self ∧ _grow self' = _grow self ∧ score self' = score self
  ∧ food_tl self' = food_tl self ∧ gameOver self' = gameOver self
  ∧ _last_move_t self' = _last_move_t self ∧ _dir self' = _dir self
  ∧ grid_w self' = grid_w self ∧ grid_h self' = grid_h self.
Proof.
  unfold handle_pointer. destruct p as [p |].
  - intros H. apply _update_direction_from_finger_frame in H as [d ->]. by cbn.
  - destruct (Qlt_bool _ _); intros [= <-]; by cbn.
Qed.

Lemma handle_pointer_ok (self : SnakeGame) (now : Q) (p : option (Z * Z)) :
  snake self ≠ [] → ∃ self', handle_pointer self now p = Ok self'.
Proof.
  intros Hne. unfold handle_pointer. destruct p as [p |].
  - by apply _update_direction_from_finger_ok.
  - destruct (Qlt_bool _ _); by eexists.
Qed.

(** ** The two branches of [update] in a live game *)

Lemma update_over (self : SnakeGame) (now : Q) (p : option (Z * Z)) (g : RNG) :
  gameOver self = true → update self now p g = Ok (self, g).
Proof. unfold update. by intros ->. Qed.

Lemma update_moves (self s1 : SnakeGame) (now : Q) (p : option (Z * Z)) (g : RNG) :
  gameOver self = false → handle_pointer self now p = Ok s1 →
  _paused s1 = false → (move_interval <= now - _last_move_t s1)%Q →
  update self now p g
  = '(s2, g2) ← move_loop (Z.to_nat (catch_up_steps now s1)) now s1 g;
    Ok (set_last_move_t now s2, g2).
Proof.
  intros Hover Hp Hpa He. unfold update. rewrite Hover, Hp. cbn.
  apply Qle_bool_iff in He. by rewrite Hpa, He.
Qed.

Lemma update_idles (self s1 : SnakeGame) (now : Q) (p : option (Z * Z)) (g : RNG) :
  gameOver self = false → handle_pointer self now p = Ok s1 →
  _paused s1 = true ∨ (now - _last_move_t s1 < move_interval)%Q →
  update self now p g = Ok (s1, g).
Proof.
  intros Hover Hp Hc. unfold update. rewrite Hover, Hp. cbn.
  destruct Hc as [-> | Hlt]; [done |].
  apply Qlt_bool_iff in Hlt. unfold Qlt_bool in Hlt.
  apply negb_true_iff in Hlt. rewrite Hlt. by rewrite andb_false_r.
Qed.

(** ** The loop: totality and invariants *)

Lemma next_head_is_Some (self : SnakeGame) :
  snake self ≠ [] → ∃ c, next_head self = Some c.
Proof.
  unfold next_head. destruct (snake self) as [| [hx hy] tl]; [done |]. by eauto.
Qed.

Lemma step_effect_nonempty (self : SnakeGame) (c : Cell) (self' : SnakeGame) :
  snake self ≠ [] → step_effect self c self' → snake self' ≠ [].
Proof.
  intros Hne (Hs & _). rewrite Hs.
  destruct (snake self) as [| h tl]; [done |]. by destruct (0 <? _).
Qed.

Lemma move_once_ok (now : Q) (self : SnakeGame) (g : RNG) :
  snake self ≠ [] →
  ∃ fl self' g', move_once now self g = Ok (fl, self', g') ∧ snake self' ≠ [].
Proof.
  intros Hne. destruct (next_head_is_Some self Hne) as [c Hc].
  destruct (collides self c) eqn:Hcol.
  - rewrite (move_once_collide now self g c Hc Hcol). by eexists _, _, _.
  - destruct (move_once_advance now self g c Hc Hcol) as (s' & g' & -> & He & _).
    eexists _, _, _. split; [done |]. by eapply step_effect_nonempty.
Qed.

Lemma move_loop_ok (n : nat) (now : Q) (self : SnakeGame) (g : RNG) :
  snake self ≠ [] →
  ∃ self' g', move_loop n now self g = Ok (self', g') ∧ snake self' ≠ [].
Proof.
  revert self g. induction n as [| n IH]; intros self g Hne; cbn.
  - by eauto.
  - destruct (move_once_ok now self g Hne) as (fl & s' & g' & -> & Hne').
    cbn. destruct fl; [by apply IH | by eauto].
Qed.

Lemma move_loop_invariant (P : SnakeGame → Prop) :
  (∀ now s g fl s' g', P s → move_once now s g = Ok (fl, s', g') → P s') →
  ∀ n now s g s' g', P s → move_loop n now s g = Ok (s', g') → P s'.
Proof.
  intros Hstep n. induction n as [| n IH]; intros now s g s' g' HP; cbn.
  - by intros [= <- <-].
  - destruct (move_once now s g) as [[[fl s1] g1] | e] eqn:Hm; [| done].
    cbn. destruct fl.
    + apply IH. by eapply Hstep.
    + intros [= <- <-]. by eapply Hstep.
Qed.

Lemma move_loop_outcome (n : nat) (now : Q) (s : SnakeGame) (g : RNG) :
  snake s ≠ [] →
  ∃ s' g', move_loop n now s g = Ok (s', g') ∧ loop_outcome now n s g s' g'.
Proof.
  revert s g. induction n as [| n IH]; intros s g Hne; cbn.
  { eexists _, _. split; [done |]. left. split; [constructor | done]. }
  destruct (next_head_is_Some s Hne) as [c Hc].
  destruct (collides s c) eqn:Hcol.
  - pose proof (move_once_collide now s g c Hc Hcol) as Hm. rewrite Hm. cbn.
    eexists _, _. split; [done |]. right. exists 0%nat, s, g.
    split; [lia |]. split; [constructor |]. by split.
  - destruct (move_once_advance now s g c Hc Hcol) as (s1 & g1 & Hm & He & _).
    rewrite Hm. cbn.
    destruct (IH s1 g1) as (s' & g' & Hl & Hout); [by eapply step_effect_nonempty |].
    exists s', g'. split; [done |].
    assert (Hov1 : gameOver s1 = gameOver s).
    { by destruct He as (_ & _ & _ & _ & _ & _ & ? & _). }
    destruct Hout as [[Ha Hov] | (k & sk & gk & Hk & Ha & Hb & Hov)].
    + left. split; [by econstructor | by rewrite Hov].
    + right. exists (S k), sk, gk. split; [lia |]. split; [by econstructor | done].
Qed.

Lemma update_ok (self : SnakeGame) (now : Q) (p : option (Z * Z)) (g : RNG) :
  snake self ≠ [] →
  ∃ self' g', update self now p g = Ok (self', g') ∧ snake self' ≠ [].
Proof.
  intros Hne. unfold update. destruct (gameOver self); [by eauto |].
  destruct (handle_pointer_ok self now p Hne) as [s1 Hp].
  destruct (handle_pointer_frame _ _ _ _ Hp) as (Hs & _).
  rewrite Hp. cbn. destruct (_ && _).
  - destruct (move_loop_ok (Z.to_nat (catch_up_steps now s1)) now s1 g)
      as (s2 & g2 & -> & Hne2); [by rewrite Hs |].
    cbn. by eauto.
  - eexists _, _. split; [done |]. by rewrite Hs.
Qed.

(** ** Claims about the stepper *)

(** C8. Once [gameOver] is true the game is frozen: every later call of
    [update], whatever the clock reading and the pointer sample, returns
    the object with all attributes unchanged (in particular [gameOver]
    stays true); only [reset] leaves that state. *)
Theorem game_over_is_terminal (self : SnakeGame)
  (calls : list (Q * option (Z * Z))) (g : RNG) :
  gameOver self = true → run self calls g = Ok (self, g).
Proof.
  intros Hover. induction calls as [| [now p] rest IH]; cbn; [done |].
  by rewrite update_over.
Qed.

Lemma game_over_is_terminal_witness :
  gameOver ended_game = true
  ∧ run ended_game [(1%Q, Some (300, 200)); (5%Q, None); (9%Q, Some (0, 0))] (rng_const 7)
    = Ok (ended_game, rng_const 7).
Proof. split; [reflexivity | by apply game_over_is_terminal]. Defined.

(** C9. Entering the cell that holds the tail is fatal, whatever the
    growth counter (so also when it is 0): the membership test of line
    333 sees the whole body before the head is inserted and before the
    tail is popped.  The step breaks out of the loop with [gameOver] set
    and the body as it was. *)
Theorem tail_cell_is_fatal (now : Q) (self : SnakeGame) (g : RNG) (c : Cell)
  (n : nat) :
  next_head self = Some c → last (snake self) = Some c →
  ∃ self', move_once now self g = Ok (Break, self', g)
           ∧ move_loop (S n) now self g = Ok (self', g)
           ∧ gameOver self' = true
           ∧ snake self' = snake self.
Proof.
  intros Hc Hl.
  assert (Hcol : collides self c = true).
  { unfold collides. apply last_Some_elem_of in Hl.
    rewrite (bool_decide_eq_true_2 _ Hl). by rewrite !orb_true_r. }
  eexists. split; [by apply move_once_collide with c |].
  cbn [move_loop]. rewrite (move_once_collide now self g c Hc Hcol). by cbn.
Qed.

Lemma tail_cell_is_fatal_witness :
  _grow bent_game = 0
  ∧ ∃ self', move_once 0 bent_game (rng_const 0) = Ok (Break, self', rng_const 0)
             ∧ move_loop 3 0 bent_game (rng_const 0) = Ok (self', rng_const 0)
             ∧ gameOver self' = true
             ∧ snake self' = snake bent_game.
Proof.
  split; [reflexivity |].
  apply (tail_cell_is_fatal 0 bent_game (rng_const 0) (8, 3) 2); reflexivity.
Defined.

(** C4. One [update] runs the step loop at most 3 times however much
    time has passed: the loop count never exceeds 3, and every call in a
    live game either moves nothing or is the loop over [range(n)] for
    some [n <= 3].  With ten intervals elapsed (and the game not paused)
    it is the loop over [range(3)]: exactly three steps are applied, or
    fewer when one of them collides, which ends the loop and the game. *)
Theorem bounded_catch_up (self s1 : SnakeGame) (now : Q) (p : option (Z * Z))
  (g : RNG) :
  gameOver self = false → snake self ≠ [] → handle_pointer self now p = Ok s1 →
  catch_up_steps now s1 ≤ 3
  ∧ (∃ n, (n ≤ 3)%nat
          ∧ (update self now p g = Ok (s1, g)
             ∨ update self now p g
               = '(s2, g2) ← move_loop n now s1 g; Ok (set_last_move_t now s2, g2)))
  ∧ (_paused s1 = false →
     (now - _last_move_t self == 10 * move_interval)%Q →
     ∃ s2 g2,
       update self now p g = Ok (set_last_move_t now s2, g2)
       ∧ move_loop 3 now s1 g = Ok (s2, g2)
       ∧ loop_outcome now 3 s1 g s2 g2).
Proof.
  intros Hover Hne Hp.
  destruct (handle_pointer_frame _ _ _ _ Hp) as (Hs & _ & _ & _ & _ & Ht & _).
  split; [apply catch_up_steps_le |]. split.
  - exists (Z.to_nat (catch_up_steps now s1)). split.
    + pose proof (catch_up_steps_le now s1). lia.
    + destruct (_paused s1) eqn:Hpa.
      { left. apply update_idles; auto. }
      destruct (Qlt_le_dec (now - _last_move_t s1) move_interval) as [Hlt | Hle].
      * left. apply update_idles; auto.
      * right. by apply update_moves.
  - intros Hpa He. rewrite <- Ht in He.
    assert (H3 : (3 * move_interval <= now - _last_move_t s1)%Q).
    { rewrite He. by vm_compute. }
    destruct (move_loop_outcome 3 now s1 g) as (s2 & g2 & Hl & Hout);
      [by rewrite Hs |].
    exists s2, g2. split; [| done].
    rewrite (update_moves self s1 now p g Hover Hp Hpa).
    + rewrite (catch_up_steps_full now s1 H3).
      change (Z.to_nat 3) with 3%nat. by rewrite Hl.
    + eapply Qle_trans; [| exact H3]. by vm_compute.
Qed.

Lemma bounded_catch_up_witness :
  let self := fresh_game (0, 0) in
  let s1 := set_paused false (set_last_hand_seen_t 1.2 self) in
  (1.2 - _last_move_t self == 10 * move_interval)%Q
  ∧ catch_up_steps 1.2 s1 ≤ 3
  ∧ ∃ s2 g2,
      update self 1.2 (Some (320, 187)) (rng_const 0)
      = Ok (set_last_move_t 1.2 s2, g2)
      ∧ move_loop 3 1.2 s1 (rng_const 0) = Ok (s2, g2)
      ∧ loop_outcome 1.2 3 s1 (rng_const 0) s2 g2.
Proof.
  intros self s1.
  destruct (bounded_catch_up self s1 1.2 (Some (320, 187)) (rng_const 0))
    as (Hle & _ & H3); [reflexivity | done | reflexivity |].
  split; [by vm_compute |]. split; [exact Hle |].
  apply H3; [reflexivity | by vm_compute].
Defined.

(** The same call evaluated: three cells to the right, no more. *)
Example ten_intervals_three_cells :
  ∃ s' g', update (fresh_game (0, 0)) 1.2 (Some (320, 187)) (rng_const 0)
           = Ok (s', g')
           ∧ snake s' = [(12, 4); (11, 4); (10, 4)].
Proof. eexists _, _. split; [vm_compute; reflexivity | reflexivity]. Qed.

(** C2 as stated fails: [update] assigns [now] to [_last_move_t] (line
    351).  With the last tick at 0 and the clock at 0.15 one step runs
    and the timestamp becomes 0.15, not 0 + 1 * 0.12. *)
Lemma tick_timestamp_drops_phase :
  ∃ s' g', update (fresh_game (0, 0)) 0.15 None (rng_const 0) = Ok (s', g')
           ∧ catch_up_steps 0.15 (fresh_game (0, 0)) = 1
           ∧ snake s' = [(10, 4); (9, 4); (8, 4)]
           ∧ ¬ (_last_move_t s'
                == _last_move_t (fresh_game (0, 0)%Z) + inject_Z 1 * move_interval)%Q.
Proof.
  eexists _, _. split; [vm_compute; reflexivity |].
  split; [reflexivity |]. split; [reflexivity |].
  cbn. unfold Qeq. by vm_compute.
Qed.

(** C2, amended.  Every [update] of a live game that enters the movement
    block (not paused, at least one interval elapsed) runs at least one
    iteration of the loop and then sets [_last_move_t] to [now]: the
    remainder of the elapsed time is dropped. *)
Theorem update_sets_tick_to_now (self s1 : SnakeGame) (now : Q)
  (p : option (Z * Z)) (g : RNG) :
  gameOver self = false → snake self ≠ [] →
  handle_pointer self now p = Ok s1 → _paused s1 = false →
  (move_interval <= now - _last_move_t self)%Q →
  1 ≤ catch_up_steps now s1
  ∧ ∃ s' g', update self now p g = Ok (s', g') ∧ _last_move_t s' = now.
Proof.
  intros Hover Hne Hp Hpa He.
  destruct (handle_pointer_frame _ _ _ _ Hp) as (Hs & _ & _ & _ & _ & Ht & _).
  rewrite <- Ht in He. split; [by apply catch_up_steps_pos |].
  rewrite (update_moves self s1 now p g Hover Hp Hpa He).
  destruct (move_loop_ok (Z.to_nat (catch_up_steps now s1)) now s1 g)
    as (s2 & g2 & -> & _); [by rewrite Hs |].
  cbn. by eauto.
Qed.

Lemma update_sets_tick_to_now_witness :
  1 ≤ catch_up_steps 0.15 (fresh_game (0, 0))
  ∧ ∃ s' g', update (fresh_game (0, 0)) 0.15 None (rng_const 0) = Ok (s', g')
             ∧ _last_move_t s' = 0.15%Q.
Proof.
  apply (update_sets_tick_to_now (fresh_game (0, 0)) (fresh_game (0, 0)) 0.15
           None (rng_const 0)); try reflexivity; [done | by vm_compute].
Defined.

(** ** Food and growth *)

Lemma step_effect_length (self : SnakeGame) (c : Cell) (self' : SnakeGame) :
  step_effect self c self' →
  length (snake self')
  = if 0 <? (if in_food self c then _grow self + 2 else _grow self)
    then S (length (snake self)) else length (snake self).
Proof.
  intros (Hs & _). rewrite Hs. destruct (0 <? _); [done |].
  apply removelast_cons_length.
Qed.

(** C1 as stated fails: on the tick that eats, the head is inserted, the
    counter goes 0 -> 2 -> 1 and the tail is kept, so the body is already
    one cell longer at the end of that tick.  Food at [(10,3)] covers
    [(10,4)], the cell in front of the fresh snake. *)
Lemma eating_tick_already_grows :
  let self := fresh_game (10, 3) in
  _grow self = 0
  ∧ next_head self = Some (10, 4)
  ∧ collides self (10, 4) = false
  ∧ in_food self (10, 4) = true
  ∧ ∃ s1 g1, move_once 0 self (rng_const 0) = Ok (Continue, s1, g1)
             ∧ length (snake self) = 3%nat
             ∧ length (snake s1) = 4%nat
             ∧ length (snake s1) ≠ length (snake self).
Proof.
  cbv zeta. repeat (split; [reflexivity |]).
  eexists _, _. split; [vm_compute; reflexivity |]. by repeat split.
Qed.

(** C1, amended.  From a state with [_grow = 0], a legal step whose new
    head lies in the food block adds 1 to [score] and leaves the body one
    cell longer on that same tick; the next legal step without food makes
    it two cells longer than before the meal, and the legal step after
    that, again without food, keeps that length.  Between the ticks the
    pending direction may be reassigned ([d2], [d3]). *)
Theorem food_growth_contract (now : Q) (self : SnakeGame) (g : RNG) (c : Cell) :
  _grow self = 0 → next_head self = Some c →
  collides self c = false → in_food self c = true →
  ∃ s1 g1,
    move_once now self g = Ok (Continue, s1, g1)
    ∧ length (snake s1) = S (length (snake self))
    ∧ score s1 = score self + 1
    ∧ ∀ now2 d2 c2 g2,
        next_head (set_pending_dir d2 s1) = Some c2 →
        collides (set_pending_dir d2 s1) c2 = false →
        in_food (set_pending_dir d2 s1) c2 = false →
        ∃ s2,
          move_once now2 (set_pending_dir d2 s1) g2 = Ok (Continue, s2, g2)
          ∧ length (snake s2) = S (S (length (snake self)))
          ∧ score s2 = score self + 1
          ∧ ∀ now3 d3 c3 g3,
              next_head (set_pending_dir d3 s2) = Some c3 →
              collides (set_pending_dir d3 s2) c3 = false →
              in_food (set_pending_dir d3 s2) c3 = false →
              ∃ s3,
                move_once now3 (set_pending_dir d3 s2) g3 = Ok (Continue, s3, g3)
                ∧ length (snake s3) = S (S (length (snake self)))
                ∧ score s3 = score self + 1.
Proof.
  intros Hg Hc Hcol Hfood.
  destruct (move_once_advance now self g c Hc Hcol) as (s1 & g1 & Hm1 & He1 & _).
  pose proof (step_effect_length _ _ _ He1) as Hl1.
  destruct He1 as (_ & Hg1 & Hsc1 & _).
  rewrite Hfood in Hl1, Hg1, Hsc1. rewrite Hg in Hl1, Hg1. cbn in Hl1, Hg1.
  exists s1, g1. do 3 (split; [done |]).
  intros now2 d2 c2 g2 Hc2 Hcol2 Hfood2.
  destruct (move_once_advance now2 _ g2 c2 Hc2 Hcol2) as (s2 & g2' & Hm2 & He2 & Hg2').
  rewrite (Hg2' Hfood2) in Hm2.
  pose proof (step_effect_length _ _ _ He2) as Hl2.
  destruct He2 as (_ & Hg2 & Hsc2 & _).
  rewrite Hfood2 in Hl2, Hg2, Hsc2. cbn in Hl2, Hg2, Hsc2.
  rewrite Hg1 in Hl2, Hg2. cbn in Hl2, Hg2.
  exists s2. split; [done |]. split; [by rewrite Hl2, Hl1 |].
  split; [by rewrite Hsc2 |].
  intros now3 d3 c3 g3 Hc3 Hcol3 Hfood3.
  destruct (move_once_advance now3 _ g3 c3 Hc3 Hcol3) as (s3 & g3' & Hm3 & He3 & Hg3').
  rewrite (Hg3' Hfood3) in Hm3.
  pose proof (step_effect_length _ _ _ He3) as Hl3.
  destruct He3 as (_ & _ & Hsc3 & _).
  rewrite Hfood3 in Hl3, Hsc3. cbn in Hl3, Hsc3.
  rewrite Hg2 in Hl3. cbn in Hl3.
  exists s3. split; [done |]. split; [by rewrite Hl3, Hl2, Hl1 |].
  by rewrite Hsc3, Hsc2.
Qed.

Lemma food_growth_contract_witness :
  let self := fresh_game (10, 3) in
  ∃ s1 g1,
    move_once 0 self (rng_const 0) = Ok (Continue, s1, g1)
    ∧ length (snake s1) = 4%nat
    ∧ score s1 = 1
    ∧ ∀ now2 d2 c2 g2,
        next_head (set_pending_dir d2 s1) = Some c2 →
        collides (set_pending_dir d2 s1) c2 = false →
        in_food (set_pending_dir d2 s1) c2 = false →
        ∃ s2,
          move_once now2 (set_pending_dir d2 s1) g2 = Ok (Continue, s2, g2)
          ∧ length (snake s2) = 5%nat
          ∧ score s2 = 1
          ∧ ∀ now3 d3 c3 g3,
              next_head (set_pending_dir d3 s2) = Some c3 →
              collides (set_pending_dir d3 s2) c3 = false →
              in_food (set_pending_dir d3 s2) c3 = false →
              ∃ s3,
                move_once now3 (set_pending_dir d3 s2) g3 = Ok (Continue, s3, g3)
                ∧ length (snake s3) = 5%nat
                ∧ score s3 = 1.
Proof.
  intros self.
  apply (food_growth_contract 0 self (rng_const 0) (10, 4)); reflexivity.
Defined.

(** The three ticks evaluated: lengths 4, 5, 5 from a snake of 3. *)
Example meal_then_two_ticks :
  ∃ s1 s2 s3 g1 g2 g3,
    move_loop 1 0 (fresh_game (10, 3)) (rng_const 0) = Ok (s1, g1)
    ∧ move_loop 2 0 (fresh_game (10, 3)) (rng_const 0) = Ok (s2, g2)
    ∧ move_loop 3 0 (fresh_game (10, 3)) (rng_const 0) = Ok (s3, g3)
    ∧ map (λ s, length (snake s)) [s1; s2; s3] = [4; 5; 5]%nat
    ∧ map score [s1; s2; s3] = [1; 1; 1]
    ∧ map gameOver [s1; s2; s3] = [false; false; false].
Proof.
  eexists _, _, _, _, _, _.
  do 3 (split; [vm_compute; reflexivity |]). by repeat split.
Qed.

(** ** Invariants of reachable states *)

Lemma move_once_cases (now : Q) (s : SnakeGame) (g : RNG) (fl : flow)
  (s' : SnakeGame) (g' : RNG) :
  move_once now s g = Ok (fl, s', g') →
  ∃ c, next_head s = Some c
       ∧ ((collides s c = true ∧ fl = Break ∧ g' = g
           ∧ s' = set_gameOver true (set_dir (_pending_dir s) s))
          ∨ (collides s c = false ∧ fl = Continue ∧ step_effect s c s')).
Proof.
  intros Hm. destruct (snake s) as [| h tl] eqn:Hs.
  { unfold move_once in Hm. cbn in Hm. by rewrite Hs in Hm. }
  destruct (next_head_is_Some s) as [c Hc]; [by rewrite Hs |].
  exists c. split; [done |]. destruct (collides s c) eqn:Hcol.
  - left. rewrite (move_once_collide now s g c Hc Hcol) in Hm.
    by injection Hm as <- <- <-.
  - right. destruct (move_once_advance now s g c Hc Hcol) as (s1 & g1 & Hm1 & He & _).
    rewrite Hm1 in Hm. by injection Hm as <- <- <-.
Qed.

Lemma collides_false_fresh (s : SnakeGame) (c : Cell) :
  collides s c = false → c ∉ snake s.
Proof.
  unfold collides. intros H. apply orb_false_elim in H as [_ H].
  by apply bool_decide_eq_false in H.
Qed.

Lemma removelast_NoDup {A : Type} (l : list A) : NoDup l → NoDup (removelast l).
Proof.
  intros H. rewrite removelast_firstn_len.
  eapply sublist_NoDup; [exact H | apply sublist_take].
Qed.

Lemma step_effect_NoDup (s : SnakeGame) (c : Cell) (s' : SnakeGame) :
  collides s c = false → step_effect s c s' → NoDup (snake s) → NoDup (snake s').
Proof.
  intros Hcol (Hs & _) Hnd. rewrite Hs.
  assert (NoDup (c :: snake s)).
  { apply NoDup_cons. split; [by apply collides_false_fresh | done]. }
  destruct (0 <? _); [done | by apply removelast_NoDup].
Qed.

Lemma move_once_sound (now : Q) (s : SnakeGame) (g : RNG) (fl : flow)
  (s' : SnakeGame) (g' : RNG) :
  sound s ∧ _paused s = false → move_once now s g = Ok (fl, s', g') →
  sound s' ∧ _paused s' = false.
Proof.
  intros [(Hne & Hnd & Hop) Hpa] Hm.
  destruct (move_once_cases _ _ _ _ _ _ Hm) as (c & Hc & [(Hcol & -> & -> & ->) | (Hcol & -> & He)]).
  - by cbn.
  - pose proof He as (_ & _ & _ & _ & _ & _ & Hov & Hpa' & _).
    rewrite Hpa', Hpa. split; [| done]. split; [by eapply step_effect_nonempty |].
    split; [by eapply step_effect_NoDup | intros _; by rewrite Hpa'].
Qed.

Lemma reset_sound (self : SnakeGame) (t_move t_seen : Q) (g : RNG)
  (self' : SnakeGame) (g' : RNG) :
  reset self t_move t_seen g = Ok (self', g') →
  sound self' ∧ gameOver self' = false ∧ _paused self' = false
  ∧ _last_move_t self' = t_move ∧ _last_hand_seen_t self' = t_seen.
Proof.
  unfold reset. intros H.
  match type of H with _random_food_location ?s _ = _ =>
    destruct (_random_food_location_ok s g) as (tl & g1 & H1) end.
  rewrite H1 in H. injection H as <- <-. unfold sound. cbn.
  split; [| done]. split; [done |]. split; [| done].
  rewrite !NoDup_cons, !elem_of_cons, !elem_of_nil.
  split_and!; try apply NoDup_nil_2; intros H; destruct_or?; try done;
    injection H; lia.
Qed.

Lemma update_sound (self : SnakeGame) (now : Q) (p : option (Z * Z)) (g : RNG)
  (self' : SnakeGame) (g' : RNG) :
  sound self → update self now p g = Ok (self', g') → sound self'.
Proof.
  intros Hsound. unfold update. destruct (gameOver self) eqn:Hover.
  { by intros [= <- <-]. }
  destruct (handle_pointer self now p) as [s1 | e] eqn:Hp; [| done]. cbn.
  destruct (handle_pointer_frame _ _ _ _ Hp) as (Hs & _ & _ & _ & Hov & _).
  assert (Hs1 : sound s1).
  { destruct Hsound as (Hne & Hnd & _). unfold sound. rewrite Hs, Hov, Hover. done. }
  destruct (_paused s1) eqn:Hpa; cbn; [by intros [= <- <-] |].
  destruct (Qle_bool _ _); [| by intros [= <- <-]].
  destruct (move_loop _ now s1 g) as [[s2 g2] | e] eqn:Hl; [| done]. cbn.
  intros [= <- <-].
  assert (H2 : sound s2 ∧ _paused s2 = false).
  { eapply (move_loop_invariant (λ s, sound s ∧ _paused s = false));
      [apply move_once_sound | | exact Hl]. done. }
  destruct H2 as [(? & ? & ?) ?]. by cbn.
Qed.

Lemma reachable_sound (self : SnakeGame) : reachable self → sound self.
Proof.
  induction 1 as [self tm ts g self' g' Hr | self now p g self' g' _ IH Hu].
  - by apply reset_sound in Hr as [? _].
  - by eapply update_sound.
Qed.

(** C3. In every state reached from [reset] by calls of [update], while
    [gameOver] is false the cells of the body are pairwise distinct:
    [len(body) == len(set(body))]. *)
Theorem body_cells_distinct (self : SnakeGame) :
  reachable self → gameOver self = false →
  NoDup (snake self)
  ∧ length (snake self) = size (list_to_set (snake self) : gset Cell).
Proof.
  intros Hr _. destruct (reachable_sound self Hr) as (_ & Hnd & _).
  split; [done |]. by rewrite size_list_to_set.
Qed.

Lemma run_reachable (self : SnakeGame) (calls : list (Q * option (Z * Z)))
  (g : RNG) (self' : SnakeGame) (g' : RNG) :
  reachable self → run self calls g = Ok (self', g') → reachable self'.
Proof.
  revert self g. induction calls as [| [now p] rest IH]; intros self g Hr; cbn.
  - by intros [= <- <-].
  - destruct (update self now p g) as [[s1 g1] | e] eqn:Hu; [| done]. cbn.
    apply IH. by eapply reachable_update.
Qed.

Lemma body_cells_distinct_witness :
  ∃ s' g',
    run (fresh_game (10, 3)) [(0.15%Q, None); (0.3%Q, Some (400, 100))] (rng_const 0)
    = Ok (s', g')
    ∧ snake s' = [(11, 3); (10, 4); (9, 4); (8, 4); (7, 4)]
    ∧ NoDup (snake s')
    ∧ length (snake s') = size (list_to_set (snake s') : gset Cell).
Proof.
  eexists _, _. split; [vm_compute; reflexivity |]. split; [reflexivity |].
  apply body_cells_distinct; [| reflexivity].
  eapply (run_reachable (fresh_game (10, 3))
            [(0.15%Q, None); (0.3%Q, Some (400, 100))] (rng_const 0)).
  - apply (reachable_reset (fresh_game (0, 0)) 0 0 (rng_const 48)
             (fresh_game (10, 3)) (rng_const 48)).
    vm_compute. reflexivity.
  - vm_compute. reflexivity.
Defined.

(** ** Food placement *)

Lemma _food_cells_list_spec (tl c : Cell) :
  c ∈ _food_cells_list tl
  ↔ fst tl ≤ fst c < fst tl + 3 ∧ snd tl ≤ snd c < snd tl + 3.
Proof.
  destruct tl as [x0 y0], c as [cx cy]. unfold _food_cells_list, food_cells. cbn [fst snd].
  rewrite list_elem_of_bind. split.
  - intros (i & Hj & Hi). apply list_elem_of_bind in Hj as (j & Hc & Hj).
    apply list_elem_of_singleton in Hc. injection Hc as -> ->.
    apply elem_of_seqZ in Hi, Hj. lia.
  - intros [Hx Hy]. exists (cx - x0). split; [| apply elem_of_seqZ; lia].
    apply list_elem_of_bind. exists (cy - y0). split; [| apply elem_of_seqZ; lia].
    apply list_elem_of_singleton. f_equal; lia.
Qed.

Lemma block_inside_bounds (self : SnakeGame) (x y : Z) :
  block_inside self (x, y)
  ↔ 0 ≤ x ≤ grid_w self - 3 ∧ 0 ≤ y ≤ grid_h self - 3.
Proof.
  unfold block_inside. split.
  - intros H.
    pose proof (H (x, y)) as H0. pose proof (H (x + 2, y + 2)) as H2.
    rewrite _food_cells_list_spec in H0, H2. cbn in H0, H2. lia.
  - intros Hb c Hc. apply _food_cells_list_spec in Hc. cbn in Hc. lia.
Qed.

Lemma food_candidates_spec (self : SnakeGame) (tl : Cell) :
  tl ∈ food_candidates self ↔ block_inside self tl ∧ block_free self tl.
Proof.
  destruct tl as [x y]. rewrite block_inside_bounds.
  unfold food_candidates, block_free, food_cells.
  rewrite list_elem_of_bind.
  assert (Hall : ∀ x' y',
    forallb (λ c, negb (bool_decide (c ∈ (list_to_set (snake self) : gset Cell))))
      (_food_cells_list (x', y')) = true
    ↔ ∀ c, c ∈ _food_cells_list (x', y') → c ∉ snake self).
  { intros x' y'. rewrite forallb_forall. split.
    - intros H c Hc Hin. apply list_elem_of_In in Hc. specialize (H c Hc).
      apply negb_true_iff, bool_decide_eq_false in H. apply H.
      by apply elem_of_list_to_set.
    - intros H c Hc. apply list_elem_of_In in Hc.
      apply negb_true_iff, bool_decide_eq_false. rewrite elem_of_list_to_set.
      by apply H. }
  split.
  - intros (x' & Hy & Hx). apply list_elem_of_bind in Hy as (y' & Hc & Hy).
    apply elem_of_seqZ in Hx, Hy.
    destruct (forallb _ _) eqn:Hf; [| by apply elem_of_nil in Hc].
    apply list_elem_of_singleton in Hc. injection Hc as -> ->.
    split; [lia |]. by apply Hall.
  - intros [Hb Hfree]. exists x. split; [| apply elem_of_seqZ; lia].
    apply list_elem_of_bind. exists y. split; [| apply elem_of_seqZ; lia].
    apply Hall in Hfree. rewrite Hfree. by apply list_elem_of_singleton.
Qed.


(** Scenario C evaluated: no candidate is left and the centre block
    [(2,2)] is returned although the body crosses it. *)
Example blocked_board_falls_back :
  food_candidates blocked_game = []
  ∧ (∃ s' g', _random_food_location blocked_game (rng_const 5) = Ok (s', g')
              ∧ food_tl s' = (2, 2) ∧ snake s' = snake blocked_game)
  ∧ (2, 2) ∈ snake blocked_game.
Proof.
  split; [vm_compute; reflexivity |].
  split; [eexists _, _; split; [vm_compute; reflexivity | done] |].
  apply list_elem_of_In. cbn. tauto.
Qed.

(** ** Direction from the pointer *)

Lemma py_int_half_cell (a : Z) : py_int (inject_Z a + inject_Z cell * 0.5) = a + 13.
Proof.
  unfold py_int, cell. cbn.
  transitivity (Z.quot ((a + 13) * 10) 10); [| by apply Z.quot_mul].
  f_equal; first [reflexivity | lia].
Qed.

(** The head's pixel centre is the centre of its grid cell. *)
Lemma _head_pixel_center_value (self : SnakeGame) (gx gy : Z) (tl : list Cell) :
  snake self = (gx, gy) :: tl →
  _head_pixel_center self
  = Ok (fst (_board_origin self) + gx * cell + 13,
        snd (_board_origin self) + gy * cell + 13).
Proof.
  intros Hs. unfold _head_pixel_center. rewrite Hs.
  destruct (_board_origin self) as [ox oy]. by rewrite !py_int_half_cell.
Qed.

Lemma within_deadzone_iff (d : Z) : within_deadzone d ↔ Z.abs d ≤ 14.
Proof.
  unfold within_deadzone, dead, cell, Qlt. cbn. lia.
Qed.

Lemma adopt_candidate_test (self : SnakeGame) (cand : Cell) :
  (if (fst cand =? - fst (_dir self)) && (snd cand =? - snd (_dir self))
   then Ok self else Ok (set_pending_dir cand self))
  = adopt_candidate self cand.
Proof.
  unfold adopt_candidate. destruct cand as [cx cy]. cbn [fst snd].
  destruct (decide _) as [[= -> ->] | Hne].
  - by rewrite !Z.eqb_refl.
  - destruct (Z.eqb_spec cx (- fst (_dir self))) as [-> |]; [| done].
    destruct (Z.eqb_spec cy (- snd (_dir self))) as [-> |]; done.
Qed.

Lemma deadzone_test (d : Z) :
  Qlt_bool (inject_Z (Z.abs d)) dead = (Z.abs d <=? 14).
Proof.
  destruct (Z.leb_spec (Z.abs d) 14) as [H | H].
  - by apply Qlt_bool_iff, within_deadzone_iff.
  - apply Qlt_bool_false, Qnot_lt_le. fold (within_deadzone d).
    rewrite within_deadzone_iff. lia.
Qed.

Ltac resolver_cases :=
  repeat match goal with
         | |- context [Z.leb ?a ?b] => destruct (Z.leb_spec a b); try lia
         | |- context [Z.ltb ?a ?b] => destruct (Z.ltb_spec a b); try lia
         end; cbn.

(** C5. The direction resolver, for every head centre [(hx, hy)],
    pointer [(fx, fy)] and current direction.  With [dx = fx - hx] and
    [dy = fy - hy]: both below the deadzone, the object is left as it
    was; otherwise the candidate is the diagonal [(sign dx, sign dy)]
    when both are at or beyond the deadzone, and the cardinal direction
    on the axis that is at or beyond it when only one is.  The call then
    returns an object whose [_pending_dir] is the candidate, unless the
    candidate is the exact negation of the current direction [_dir], in
    which case [_pending_dir] keeps its value; no other attribute
    changes. *)
Theorem direction_resolver (self : SnakeGame) (hx hy fx fy : Z) :
  _head_pixel_center self = Ok (hx, hy) →
  let dx := fx - hx in
  let dy := fy - hy in
  let reverse := (- fst (_dir self), - snd (_dir self)) in
  (within_deadzone dx → within_deadzone dy →
   _update_direction_from_finger self (fx, fy) = Ok self)
  ∧ ∀ cand,
      (¬ within_deadzone dx ∧ ¬ within_deadzone dy ∧ cand = (Z.sgn dx, Z.sgn dy))
      ∨ (¬ within_deadzone dx ∧ within_deadzone dy ∧ cand = (Z.sgn dx, 0))
      ∨ (within_deadzone dx ∧ ¬ within_deadzone dy ∧ cand = (0, Z.sgn dy)) →
      ∃ s', _update_direction_from_finger self (fx, fy) = Ok s'
            ∧ same_but_pending self s'
            ∧ (cand ≠ reverse → _pending_dir s' = cand)
            ∧ (cand = reverse → _pending_dir s' = _pending_dir self).
Proof.
  intros Hc dx dy reverse.
  assert (Hadopt : ∀ cand,
    ∃ s', adopt_candidate self cand = Ok s'
          ∧ same_but_pending self s'
          ∧ (cand ≠ reverse → _pending_dir s' = cand)
          ∧ (cand = reverse → _pending_dir s' = _pending_dir self)).
  { intros cand. unfold adopt_candidate. fold reverse.
    destruct (decide _) as [Heq | Hne]; eexists; (split; [reflexivity |]);
      (split; [by repeat split |]); by split. }
  unfold _update_direction_from_finger. rewrite Hc. cbn.
  fold dx dy. rewrite !deadzone_test, !within_deadzone_iff.
  split.
  - intros Hx Hy. by resolver_cases.
  - intros cand Hcases.
    destruct (Hadopt cand) as (s' & Ha & Hrest). exists s'. split; [| done].
    rewrite <- Ha.
    destruct Hcases as [(Hx & Hy & ->) | [(Hx & Hy & ->) | (Hx & Hy & ->)]];
      rewrite within_deadzone_iff in Hx, Hy.
    + resolver_cases.
      all: rewrite ?(Z.sgn_pos dx), ?(Z.sgn_neg dx), ?(Z.sgn_pos dy), ?(Z.sgn_neg dy) by lia.
      all: exact (adopt_candidate_test self _).
    + resolver_cases.
      all: rewrite ?(Z.sgn_pos dx), ?(Z.sgn_neg dx) by lia.
      all: exact (adopt_candidate_test self _).
    + resolver_cases.
      all: rewrite ?(Z.sgn_pos dy), ?(Z.sgn_neg dy) by lia.
      all: exact (adopt_candidate_test self _).
Qed.
(** Scenario A and the anti-reversal rule on the fresh board, whose head
    centre is the pixel [(320, 187)] and whose direction is [(1, 0)]: a
    pointer near the head changes nothing, a pointer straight above
    turns the snake up, a pointer far to the left (the reverse of its
    heading) leaves the pending direction as it is, a pointer up-right
    gives the diagonal. *)
Lemma direction_resolver_witness :
  let self := fresh_game (0, 0) in
  _head_pixel_center self = Ok (320, 187)
  ∧ _dir self = (1, 0) ∧ _pending_dir self = (1, 0)
  ∧ _update_direction_from_finger self (325, 180) = Ok self
  ∧ (∃ s', _update_direction_from_finger self (320, 100) = Ok s'
           ∧ same_but_pending self s' ∧ _pending_dir s' = (0, -1))
  ∧ (∃ s', _update_direction_from_finger self (100, 187) = Ok s'
           ∧ same_but_pending self s' ∧ _pending_dir s' = (1, 0))
  ∧ (∃ s', _update_direction_from_finger self (400, 100) = Ok s'
           ∧ same_but_pending self s' ∧ _pending_dir s' = (1, -1)).
Proof.
  intros self. split; [reflexivity |]. split; [reflexivity |].
  split; [reflexivity |]. split_and!.
  - destruct (direction_resolver self 320 187 325 180 eq_refl) as (H & _).
    apply H; by vm_compute.
  - destruct (direction_resolver self 320 187 320 100 eq_refl) as (_ & H).
    destruct (H (0, -1)) as (s' & Hu & Hsame & Hne & _).
    { right. right. split; [by vm_compute |]. split; [by vm_compute | reflexivity]. }
    exists s'. split; [done |]. split; [done |]. apply Hne. by vm_compute.
  - destruct (direction_resolver self 320 187 100 187 eq_refl) as (_ & H).
    destruct (H (-1, 0)) as (s' & Hu & Hsame & _ & Heq).
    { right. left. split; [by vm_compute |]. split; [by vm_compute | reflexivity]. }
    exists s'. split; [done |]. split; [done |]. apply Heq. reflexivity.
  - destruct (direction_resolver self 320 187 400 100 eq_refl) as (_ & H).
    destruct (H (1, -1)) as (s' & Hu & Hsame & Hne & _).
    { left. split; [by vm_compute |]. split; [by vm_compute | reflexivity]. }
    exists s'. split; [done |]. split; [done |]. apply Hne. by vm_compute.
Defined.

(** ** Pause and resume *)

Lemma move_once_keeps (now : Q) (s : SnakeGame) (g : RNG) (fl : flow)
  (s' : SnakeGame) (g' : RNG) :
  move_once now s g = Ok (fl, s', g') →
  _paused s' = _paused s ∧ _last_hand_seen_t s' = _last_hand_seen_t s
  ∧ _last_move_t s' = _last_move_t s.
Proof.
  intros Hm.
  destruct (move_once_cases _ _ _ _ _ _ Hm)
    as (c & Hc & [(Hcol & -> & -> & ->) | (Hcol & -> & He)]).
  - by cbn.
  - by destruct He as (_ & _ & _ & _ & _ & _ & _ & ? & ? & ? & _).
Qed.

Lemma move_loop_keeps (n : nat) (now : Q) (s : SnakeGame) (g : RNG)
  (s' : SnakeGame) (g' : RNG) :
  move_loop n now s g = Ok (s', g') →
  _paused s' = _paused s ∧ _last_hand_seen_t s' = _last_hand_seen_t s
  ∧ _last_move_t s' = _last_move_t s.
Proof.
  intros Hl.
  apply (move_loop_invariant
           (λ x, _paused x = _paused s ∧ _last_hand_seen_t x = _last_hand_seen_t s
                 ∧ _last_move_t x = _last_move_t s)) in Hl; [done | | done].
  intros now0 x g0 fl x' g0' (H1 & H2 & H3) Hm.
  apply move_once_keeps in Hm as (-> & -> & ->). done.
Qed.

Lemma handle_pointer_absent_within (self : SnakeGame) (now : Q) :
  (now - _last_hand_seen_t self <= 0.6)%Q → handle_pointer self now None = Ok self.
Proof. intros H. cbn. apply Qlt_bool_false in H. by rewrite H. Qed.

Lemma handle_pointer_absent_beyond (self : SnakeGame) (now : Q) :
  (0.6 < now - _last_hand_seen_t self)%Q →
  handle_pointer self now None = Ok (set_paused true self).
Proof. intros H. cbn. apply Qlt_bool_iff in H. by rewrite H. Qed.

Lemma update_after_pointer (self s1 : SnakeGame) (now : Q) (p : option (Z * Z))
  (g : RNG) :
  gameOver self = false → snake self ≠ [] → handle_pointer self now p = Ok s1 →
  ∃ s' g', update self now p g = Ok (s', g')
           ∧ _paused s' = _paused s1
           ∧ _last_hand_seen_t s' = _last_hand_seen_t s1.
Proof.
  intros Hover Hne Hp.
  destruct (handle_pointer_frame _ _ _ _ Hp) as (Hs & _).
  destruct (_paused s1) eqn:Hpa.
  { rewrite (update_idles self s1 now p g Hover Hp); [| by left].
    by eexists _, _. }
  destruct (Qlt_le_dec (now - _last_move_t s1) move_interval) as [Hlt | Hle].
  { rewrite (update_idles self s1 now p g Hover Hp); [| by right].
    by eexists _, _. }
  rewrite (update_moves self s1 now p g Hover Hp Hpa Hle).
  destruct (move_loop_ok (Z.to_nat (catch_up_steps now s1)) now s1 g)
    as (s2 & g2 & Hl & _); [by rewrite Hs |].
  rewrite Hl. cbn. eexists _, _. split; [done |].
  apply move_loop_keeps in Hl as (H1 & H2 & _). cbn. by rewrite H1, H2.
Qed.

Lemma update_present_unpauses (self : SnakeGame) (now : Q) (p : Z * Z) (g : RNG) :
  sound self →
  ∃ s' g', update self now (Some p) g = Ok (s', g') ∧ _paused s' = false.
Proof.
  intros (Hne & _ & Hop). destruct (gameOver self) eqn:Hover.
  { rewrite update_over by done. eexists _, _. split; [done | by apply Hop]. }
  destruct (handle_pointer_ok self now (Some p) Hne) as [s1 Hp].
  destruct (update_after_pointer self s1 now (Some p) g Hover Hne Hp)
    as (s' & g' & Hu & Hpa & _).
  exists s', g'. split; [done |]. rewrite Hpa.
  cbn in Hp. apply _update_direction_from_finger_frame in Hp as [d ->]. by cbn.
Qed.

Lemma run_absent_within (self : SnakeGame) (calls : list (Q * option (Z * Z)))
  (g : RNG) :
  sound self → _paused self = false →
  Forall (λ c, snd c = None ∧ (fst c - _last_hand_seen_t self <= 0.6)%Q) calls →
  ∃ s' g', run self calls g = Ok (s', g') ∧ sound s' ∧ _paused s' = false
           ∧ _last_hand_seen_t s' = _last_hand_seen_t self.
Proof.
  intros Hsound Hpa Hcalls. revert self g Hsound Hpa Hcalls.
  induction calls as [| [now p] rest IH]; intros self g Hsound Hpa Hcalls; cbn.
  { by eexists _, _. }
  apply Forall_cons in Hcalls as [[Hp Hw] Hrest]. cbn in Hp, Hw. subst p.
  assert (∃ s1 g1, update self now None g = Ok (s1, g1) ∧ sound s1
                   ∧ _paused s1 = false
                   ∧ _last_hand_seen_t s1 = _last_hand_seen_t self)
    as (s1 & g1 & Hu & Hs1 & Hpa1 & Ht1).
  { destruct (gameOver self) eqn:Hover.
    - rewrite update_over by done. by eexists _, _.
    - destruct Hsound as (Hne & Hnd & Hop).
      destruct (update_after_pointer self self now None g Hover Hne)
        as (s1 & g1 & Hu & Hpa1 & Ht1); [by apply handle_pointer_absent_within |].
      exists s1, g1. split; [done |].
      split; [by eapply update_sound | by rewrite Hpa1]. }
  rewrite Hu. cbn.
  destruct (IH s1 g1 Hs1 Hpa1) as (s' & g' & Hr & Hs' & Hpa' & Ht').
  { eapply Forall_impl; [exact Hrest |]. intros [n q] [? ?]. by rewrite Ht1. }
  exists s', g'. by rewrite Ht', Ht1.
Qed.

Lemma run_game_over (self : SnakeGame) (calls : list (Q * option (Z * Z)))
  (g : RNG) :
  gameOver self = true → run self calls g = Ok (self, g).
Proof.
  intros Hover. induction calls as [| [now p] rest IH]; cbn; [done |].
  by rewrite update_over.
Qed.

Lemma update_present_seen (self : SnakeGame) (now : Q) (p : Z * Z) (g : RNG) :
  sound self →
  ∃ s' g', update self now (Some p) g = Ok (s', g') ∧ _paused s' = false
           ∧ sound s'
           ∧ (gameOver self = false → _last_hand_seen_t s' = now)
           ∧ (gameOver s' = false → gameOver self = false).
Proof.
  intros Hsound. pose proof Hsound as (Hne & _ & Hop).
  destruct (gameOver self) eqn:Hover.
  { rewrite update_over by done. exists self, g.
    split; [done |]. split; [by apply Hop |].
    split; [done |]. split; [done | congruence]. }
  destruct (handle_pointer_ok self now (Some p) Hne) as [s1 Hp].
  destruct (update_after_pointer self s1 now (Some p) g Hover Hne Hp)
    as (s' & g' & Hu & Hpa & Hseen).
  exists s', g'. cbn in Hp.
  apply _update_direction_from_finger_frame in Hp as [d ->].
  split_and!; try done.
  by eapply update_sound.
Qed.

Lemma run_absent_seen (self : SnakeGame) (calls : list (Q * option (Z * Z)))
  (g : RNG) :
  sound self → Forall (λ c, snd c = None) calls →
  ∃ s' g', run self calls g = Ok (s', g') ∧ sound s'
           ∧ _last_hand_seen_t s' = _last_hand_seen_t self
           ∧ (gameOver self = true → gameOver s' = true).
Proof.
  intros Hsound Hcalls. revert self g Hsound.
  induction Hcalls as [| [now p] rest Hp _ IH]; intros self g Hsound; cbn.
  { by eexists _, _. }
  cbn in Hp. subst p.
  assert (∃ s1 g1, update self now None g = Ok (s1, g1) ∧ sound s1
                   ∧ _last_hand_seen_t s1 = _last_hand_seen_t self
                   ∧ (gameOver self = true → gameOver s1 = true))
    as (s1 & g1 & Hu & Hs1 & Ht1 & Hm1).
  { destruct (gameOver self) eqn:Hover.
    - rewrite update_over by done. by eexists _, _.
    - pose proof Hsound as (Hne & _).
      destruct (handle_pointer_ok self now None Hne) as [s0 Hp].
      destruct (update_after_pointer self s0 now None g Hover Hne Hp)
        as (s1 & g1 & Hu & _ & Ht1).
      exists s1, g1. split; [done |]. split; [by eapply update_sound |].
      split; [| done]. rewrite Ht1. cbn in Hp.
      destruct (Qlt_bool _ _); by injection Hp as <-. }
  rewrite Hu. cbn. destruct (IH s1 g1 Hs1) as (s' & g' & Hr & Hs' & Ht' & Hm').
  exists s', g'. split; [done |]. split; [done |].
  split; [by rewrite Ht', Ht1 | auto].
Qed.

Lemma update_absent_beyond (self : SnakeGame) (now : Q) (g : RNG) :
  gameOver self = false → (0.6 < now - _last_hand_seen_t self)%Q →
  ∃ s', update self now None g = Ok (s', g) ∧ _paused s' = true
        ∧ same_but_paused self s'.
Proof.
  intros Hover Hlate. exists (set_paused true self).
  split; [| by repeat split].
  apply update_idles; [done | by apply handle_pointer_absent_beyond | by left].
Qed.


Lemma fresh_game_reachable : reachable (fresh_game (0, 0)).
Proof.
  apply (reachable_reset (fresh_game (0, 0)) 0 0 (rng_const 0)
           (fresh_game (0, 0)) (rng_const 0)).
  vm_compute. reflexivity.
Qed.



(** The margins used in the statements, on binary64: a difference of
    0.6 does not pass the test of line 319 and one of 0.61 does; a
    difference of 0.119 does not pass the test of line 323 and one of
    0.12 does; and three intervals, 0.36, divided by the interval give
    exactly 3.  Rounding to nearest being monotone, smaller and larger
    differences fall on the same sides. *)
#[warnings="-inexact-float"] Example thresholds_binary64 :
  absent_branch_binary64 false 0%float 0.6%float = false
  ∧ absent_branch_binary64 false 0%float 0.61%float = true
  ∧ move_due_binary64 false 0%float 0.119%float = false
  ∧ move_due_binary64 false 0%float 0.12%float = true
  ∧ PrimFloat.div 0.36%float 0.12%float = 3%float.
Proof. repeat split; vm_compute; reflexivity. Qed.

(** ** Resuming after a pause *)

Lemma reachable_at_reachable (self : SnakeGame) (t : Q) :
  reachable_at self t → reachable self.
Proof.
  induction 1 as [self tm ts g self' g' _ Hr | self t now p g self' g' _ IH _ Hu].
  - by eapply reachable_reset.
  - by eapply reachable_update.
Qed.

Lemma update_last_move (self : SnakeGame) (now : Q) (p : option (Z * Z)) (g : RNG)
  (self' : SnakeGame) (g' : RNG) :
  update self now p g = Ok (self', g') →
  _last_move_t self' = _last_move_t self ∨ _last_move_t self' = now.
Proof.
  unfold update. destruct (gameOver self); [intros [= <- <-]; by left |].
  destruct (handle_pointer self now p) as [s1 | e] eqn:Hp; [| done]. cbn.
  destruct (handle_pointer_frame _ _ _ _ Hp) as (_ & _ & _ & _ & _ & Ht & _).
  destruct (_ && _); [| intros [= <- <-]; by left].
  destruct (move_loop _ now s1 g) as [[s2 g2] | e]; [| done]. cbn.
  intros [= <- <-]. by right.
Qed.

(** With a clock that does not run backwards the last tick is never in
    the future. *)
Lemma reachable_at_tick_le (self : SnakeGame) (t : Q) :
  reachable_at self t → (_last_move_t self <= t)%Q.
Proof.
  induction 1 as [self tm ts g self' g' Hle Hr | self t now p g self' g' _ IH Hle Hu].
  - apply reset_sound in Hr as (_ & _ & _ & -> & _). done.
  - apply update_last_move in Hu as [-> | ->].
    + by eapply Qle_trans.
    + apply Qle_refl.
Qed.

Lemma run_app (self : SnakeGame) (calls1 calls2 : list (Q * option (Z * Z)))
  (g : RNG) (s1 : SnakeGame) (g1 : RNG) :
  run self calls1 g = Ok (s1, g1) →
  run self (calls1 ++ calls2) g = run s1 calls2 g1.
Proof.
  revert self g. induction calls1 as [| [now p] rest IH]; intros self g; cbn.
  - by intros [= <- <-].
  - destruct (update self now p g) as [[s g0] | e]; cbn; [apply IH | done].
Qed.

Lemma run_paused_absent (self : SnakeGame) (calls : list (Q * option (Z * Z)))
  (g : RNG) :
  gameOver self = false → _paused self = true →
  Forall (λ c, snd c = None) calls → run self calls g = Ok (self, g).
Proof.
  intros Hover Hpa. induction 1 as [| [now p] rest Hp _ IH]; cbn; [done |].
  cbn in Hp. subst p.
  assert (update self now None g = Ok (self, g)) as ->; [| done].
  destruct (Qlt_le_dec 0.6 (now - _last_hand_seen_t self)) as [Hlate | Hin].
  - rewrite (update_idles self (set_paused true self) now None g);
      [| done | by apply handle_pointer_absent_beyond | by left].
    destruct self. cbn in Hpa. by rewrite Hpa.
  - apply update_idles; [done | by apply handle_pointer_absent_within | by left].
Qed.


(** * Further properties of the engine *)

(** ** How reachable states are built *)

Lemma reset_unfold (self : SnakeGame) (t_move t_seen : Q) (g : RNG) :
  reset self t_move t_seen g
  = _random_food_location (reset_fields self t_move t_seen) g.
Proof. reflexivity. Qed.

Lemma reset_placed (self : SnakeGame) (t_move t_seen : Q) (g : RNG)
  (s' : SnakeGame) (g' : RNG) :
  reset self t_move t_seen g = Ok (s', g') →
  ∃ tl, s' = set_food_tl tl (reset_fields self t_move t_seen).
Proof.
  rewrite reset_unfold. intros H.
  destruct (_random_food_location_ok (reset_fields self t_move t_seen) g)
    as (tl & g1 & H1).
  rewrite H1 in H. injection H as <- <-. by exists tl.
Qed.

Lemma unit_dir_not_self_opposite (d : Cell) : unit_dir d → d ≠ opposite d.
Proof.
  destruct d as [dx dy]. unfold unit_dir, opposite. cbn.
  intros (Hx & Hy & Hne) [= H1 H2]. apply Hne. f_equal; lia.
Qed.

(** The resolver returns the object as it is, or with a pending direction
    that is a unit direction and not the reverse of [_dir]. *)
Lemma resolver_outcomes (self : SnakeGame) (p : Z * Z) (s1 : SnakeGame) :
  _update_direction_from_finger self p = Ok s1 →
  s1 = self
  ∨ ∃ cand, unit_dir cand ∧ cand ≠ opposite (_dir self)
            ∧ s1 = set_pending_dir cand self.
Proof.
  unfold _update_direction_from_finger.
  destruct (_head_pixel_center self) as [[hx hy] | e]; [| done].
  cbn. destruct p as [fx fy]. rewrite !deadzone_test.
  resolver_cases; try (intros [= <-]; by left).
  all: match goal with
       | |- (if _ then Ok ?s else Ok (set_pending_dir ?c ?s)) = _ → _ =>
           let E := fresh "E" in
           pose proof (adopt_candidate_test s c) as E;
           cbn -[adopt_candidate] in E; rewrite E; clear E;
           unfold adopt_candidate; destruct (decide _) as [Heq | Hne];
           intros [= <-]; [by left | right; exists c]
       end.
  all: split; [unfold unit_dir; cbn; split_and!; (lia || done) |].
  all: by split.
Qed.

(** An induction principle: a property of every reachable state is one
    that [reset] establishes and that each elementary assignment of
    [update] keeps. *)
Lemma reachable_invariant_food (P : SnakeGame → Prop) :
  (∀ self tm ts g s' g', reset self tm ts g = Ok (s', g') → P s') →
  (∀ s t, P s → P (set_last_hand_seen_t t s)) →
  (∀ s b, P s → P (set_paused b s)) →
  (∀ s cand, P s → unit_dir cand → cand ≠ opposite (_dir s) →
             P (set_pending_dir cand s)) →
  (∀ now s g fl s' g', P s → move_once now s g = Ok (fl, s', g') → P s') →
  (∀ s t, P s → P (set_last_move_t t s)) →
  ∀ s, reachable s → P s.
Proof.
  intros Hreset Hseen Hpause Hpend Hstep Htick s Hr.
  induction Hr as [self tm ts g s' g' Hr | self now p g s' g' _ IH Hu].
  - by eapply Hreset.
  - revert Hu. unfold update. destruct (gameOver self); [by intros [= <- <-] |].
    destruct (handle_pointer self now p) as [s1 | e] eqn:Hp; [| done]. cbn.
    assert (H1 : P s1).
    { destruct p as [p |]; cbn in Hp.
      - apply resolver_outcomes in Hp as [-> | (cand & Hu & Hne & ->)].
        + by apply Hpause, Hseen.
        + apply Hpend; [by apply Hpause, Hseen | done | done].
      - destruct (Qlt_bool _ _); injection Hp as <-; [by apply Hpause | done]. }
    destruct (_ && _); [| by intros [= <- <-]].
    destruct (move_loop _ now s1 g) as [[s2 g2] | e] eqn:Hl; [| done]. cbn.
    intros [= <- <-]. apply Htick.
    eapply (move_loop_invariant P); [exact Hstep | exact H1 | exact Hl].
Qed.

(** The same for properties that do not depend on where the food is. *)
Lemma reachable_invariant (P : SnakeGame → Prop) :
  (∀ self tm ts tl, P (set_food_tl tl (reset_fields self tm ts))) →
  (∀ s t, P s → P (set_last_hand_seen_t t s)) →
  (∀ s b, P s → P (set_paused b s)) →
  (∀ s cand, P s → unit_dir cand → cand ≠ opposite (_dir s) →
             P (set_pending_dir cand s)) →
  (∀ now s g fl s' g', P s → move_once now s g = Ok (fl, s', g') → P s') →
  (∀ s t, P s → P (set_last_move_t t s)) →
  ∀ s, reachable s → P s.
Proof.
  intros Hreset. apply reachable_invariant_food.
  intros self tm ts g s' g' Hr. apply reset_placed in Hr as [tl ->]. apply Hreset.
Qed.

Lemma next_head_cons (s : SnakeGame) (h : Cell) (rest : list Cell) :
  snake s = h :: rest → next_head s = Some (advance h 1 (_pending_dir s)).
Proof.
  intros Hs. unfold next_head, advance. rewrite Hs. destruct h as [hx hy].
  cbn [fst snd]. do 2 f_equal; lia.
Qed.

Lemma step_effect_snake (s : SnakeGame) (c : Cell) (s' : SnakeGame) :
  step_effect s c s' →
  snake s' = c :: snake s ∨ snake s' = removelast (c :: snake s).
Proof. intros (Hs & _). rewrite Hs. destruct (0 <? _); [by left | by right]. Qed.

(** The fresh game with food at [(10,3)], one step onto the food and one
    step up-right. *)
Lemma fed_game_reachable : reachable fed_game.
Proof.
  eapply (run_reachable (fresh_game (10, 3))
            [(0.15%Q, None); (0.3%Q, Some (400, 100))] (rng_const 0)).
  - apply (reachable_reset (fresh_game (0, 0)) 0 0 (rng_const 48)
             (fresh_game (10, 3)) (rng_const 48)).
    vm_compute. reflexivity.
  - vm_compute. reflexivity.
Qed.

(** ** No exception once the game exists *)

(** X1. Once a game has been reset, no sequence of [update] calls raises
    (the [IndexError] of [snake[0]], [list.pop] and [random.choice]
    cannot occur), and neither does a later [reset]; the states reached
    are again states of the game. *)
Theorem engine_never_raises (self : SnakeGame) :
  reachable self →
  ∀ (calls : list (Q * option (Z * Z))) (g : RNG) (tm ts : Q),
    (∃ s' g', run self calls g = Ok (s', g') ∧ reachable s')
    ∧ (∃ s' g', reset self tm ts g = Ok (s', g') ∧ reachable s').
Proof.
  intros Hr calls g tm ts. split.
  - revert self g Hr. induction calls as [| [now p] rest IH]; intros self g Hr; cbn.
    + by eexists _, _.
    + destruct (update_ok self now p g) as (s1 & g1 & Hu & _).
      { by destruct (reachable_sound self Hr). }
      rewrite Hu. cbn. apply IH. by eapply reachable_update.
  - rewrite reset_unfold.
    destruct (_random_food_location_ok (reset_fields self tm ts) g)
      as (tl & g1 & H1).
    rewrite H1. eexists _, _. split; [done |].
    eapply reachable_reset. rewrite reset_unfold. exact H1.
Qed.

Lemma engine_never_raises_witness :
  (∃ s' g', run (fresh_game (0, 0))
              [(0.2%Q, Some (400, 100)); (0.5%Q, None); (2%Q, Some (0, 0))]
              (rng_const 3)
            = Ok (s', g') ∧ reachable s')
  ∧ (∃ s' g', reset (fresh_game (0, 0)) 7 7 (rng_const 3) = Ok (s', g')
              ∧ reachable s').
Proof. apply (engine_never_raises _ fresh_game_reachable). Defined.

(** ** Length, growth credit and score *)

Lemma move_once_conserves (now : Q) (s : SnakeGame) (g : RNG) (fl : flow)
  (s' : SnakeGame) (g' : RNG) :
  0 ≤ _grow s ∧ Z.of_nat (length (snake s)) + _grow s = 3 + 2 * score s
  ∧ 3 ≤ Z.of_nat (length (snake s)) →
  move_once now s g = Ok (fl, s', g') →
  0 ≤ _grow s' ∧ Z.of_nat (length (snake s')) + _grow s' = 3 + 2 * score s'
  ∧ 3 ≤ Z.of_nat (length (snake s')).
Proof.
  intros (Hg & Hsum & Hlen) Hm.
  destruct (move_once_cases _ _ _ _ _ _ Hm)
    as (c & Hc & [(Hcol & -> & -> & ->) | (Hcol & -> & He)]); [by cbn |].
  pose proof (step_effect_length _ _ _ He) as Hl.
  destruct He as (_ & Hg' & Hsc & _). rewrite Hg', Hsc, Hl.
  destruct (in_food s c); destruct (Z.ltb_spec 0 (_grow s + 2));
    destruct (Z.ltb_spec 0 (_grow s)); lia.
Qed.

(** X2. In every reachable state the growth credit is not negative and
    [len(snake) + _grow = 3 + 2 * score]: each food item is worth exactly
    two cells, paid out one per step.  Hence the body has at least 3
    cells, at most [3 + 2 * score], and the score is not negative. *)
Theorem length_credit_score (self : SnakeGame) :
  reachable self →
  0 ≤ _grow self
  ∧ Z.of_nat (length (snake self)) + _grow self = 3 + 2 * score self
  ∧ 3 ≤ Z.of_nat (length (snake self)) ≤ 3 + 2 * score self
  ∧ 0 ≤ score self.
Proof.
  intros Hr.
  assert (H : 0 ≤ _grow self
              ∧ Z.of_nat (length (snake self)) + _grow self = 3 + 2 * score self
              ∧ 3 ≤ Z.of_nat (length (snake self))).
  { revert self Hr. apply reachable_invariant; try (intros; by cbn).
    intros t s g fl s' g'. apply move_once_conserves. }
  lia.
Qed.

Lemma length_credit_score_witness :
  0 ≤ _grow fed_game
  ∧ Z.of_nat (length (snake fed_game)) + _grow fed_game = 3 + 2 * score fed_game
  ∧ 3 ≤ Z.of_nat (length (snake fed_game)) ≤ 3 + 2 * score fed_game
  ∧ 0 ≤ score fed_game.
Proof. apply (length_credit_score fed_game fed_game_reachable). Defined.

(** ** The body on the board *)

Lemma collides_false_on_board (s : SnakeGame) (c : Cell) :
  collides s c = false → on_board s c ∧ c ∉ snake s.
Proof.
  intros H. split; [| by apply collides_false_fresh].
  unfold collides in H. unfold on_board.
  repeat (apply orb_false_elim in H as [H ?]).
  repeat match goal with
         | H : (_ <? _) = false |- _ => apply Z.ltb_ge in H
         | H : (_ <=? _) = false |- _ => apply Z.leb_gt in H
         end.
  lia.
Qed.

Lemma removelast_Forall {A : Type} (P : A → Prop) (l : list A) :
  Forall P l → Forall P (removelast l).
Proof. intros H. rewrite removelast_firstn_len. by apply Forall_take. Qed.

Lemma reachable_on_board (self : SnakeGame) :
  reachable self → 4 ≤ grid_w self → 1 ≤ grid_h self →
  Forall (on_board self) (snake self).
Proof.
  intros Hr. revert self Hr.
  apply (reachable_invariant
           (λ s, 4 ≤ grid_w s → 1 ≤ grid_h s → Forall (on_board s) (snake s)));
    try (intros; cbn in *; by auto).
  - intros self tm ts tl Hw Hh. cbn in *. unfold on_board. cbn.
    repeat (apply Forall_cons; split); try apply Forall_nil; cbn; try done;
      Z.div_mod_to_equations; lia.
  - intros t s g fl s' g' IH Hm.
    destruct (move_once_cases _ _ _ _ _ _ Hm)
      as (c & Hc & [(Hcol & -> & -> & ->) | (Hcol & -> & He)]); [by cbn |].
    pose proof (step_effect_snake _ _ _ He) as Hs.
    destruct He as (_ & _ & _ & _ & _ & _ & _ & _ & _ & _ & Hw & Hh).
    intros Hw' Hh'. rewrite Hw, Hh in *.
    assert (Hall : Forall (on_board s') (c :: snake s)).
    { apply Forall_cons. unfold on_board. rewrite Hw, Hh.
      split; [by apply collides_false_on_board | by apply IH]. }
    destruct Hs as [-> | ->]; [done | by apply removelast_Forall].
Qed.

(** X3. On a grid at least 4 cells wide and 1 cell high (every grid
    built by [__init__] is at least 8 x 8) each cell of the body of a
    reachable state lies on the board: [0 <= x < grid_w] and
    [0 <= y < grid_h]. *)
Theorem body_stays_on_board (self : SnakeGame) :
  reachable self → 4 ≤ grid_w self → 1 ≤ grid_h self →
  Forall (on_board self) (snake self).
Proof. apply reachable_on_board. Qed.

Lemma body_stays_on_board_witness : Forall (on_board fed_game) (snake fed_game).
Proof.
  apply (body_stays_on_board fed_game fed_game_reachable); by vm_compute.
Defined.

(** ** Directions and the shape of the body *)

Lemma chain_removelast (l : list Cell) : chain l → chain (removelast l).
Proof.
  induction l as [| a [| b l'] IH]; [done | done |].
  intros [Hab Hc]. specialize (IH Hc).
  destruct l' as [| c l'']; [done |]. cbn in *. split; [done | exact IH].
Qed.

Lemma unit_dir_intro (dx dy : Z) :
  -1 ≤ dx ≤ 1 → -1 ≤ dy ≤ 1 → dx ≠ 0 ∨ dy ≠ 0 → unit_dir (dx, dy).
Proof.
  intros Hx Hy Hnz. unfold unit_dir. cbn. split_and!; try lia.
  intros [= -> ->]. by destruct Hnz.
Qed.

(** What holds of directions and body in a reachable state. *)
Lemma reachable_directed (self : SnakeGame) :
  reachable self →
  unit_dir (_dir self) ∧ unit_dir (_pending_dir self)
  ∧ _pending_dir self ≠ opposite (_dir self)
  ∧ chain (snake self)
  ∧ (gameOver self = false →
     ∃ h n rest, snake self = h :: n :: rest ∧ h = advance n 1 (_dir self)).
Proof.
  intros Hr. revert self Hr. apply reachable_invariant;
    try (intros s t (? & ? & ? & ? & ?); cbn; by split_and!).
  - intros self tm ts tl. cbn. unfold opposite, adjacent, advance. cbn.
    split_and!; try (apply unit_dir_intro; lia); try done.
    intros _. eexists _, _, _. split; [done |]. cbn [fst snd]. f_equal; lia.
  - intros s cand (Hd & Hp & Hne & Hch & Hneck) Hu Hc. cbn. by split_and!.
  - intros t s g fl s' g' (Hd & Hp & Hne & Hch & Hneck) Hm.
    destruct (move_once_cases _ _ _ _ _ _ Hm)
      as (c & Hc & [(Hcol & -> & -> & ->) | (Hcol & -> & He)]).
    + cbn. split_and!; try done. by apply unit_dir_not_self_opposite.
    + pose proof (step_effect_snake _ _ _ He) as Hs.
      destruct He as (_ & _ & _ & _ & Hd' & Hp' & Hov & _).
      rewrite Hd', Hp', Hov.
      destruct (snake s) as [| h rest] eqn:Hsn.
      { unfold next_head in Hc. by rewrite Hsn in Hc. }
      rewrite (next_head_cons s h rest Hsn) in Hc. injection Hc as <-.
      assert (Hadj : adjacent (advance h 1 (_pending_dir s)) h).
      { unfold adjacent, advance. cbn. destruct Hp as (? & ? & Hnz).
        apply unit_dir_intro; try lia.
        destruct (_pending_dir s) as [px py]. cbn in *.
        destruct (decide (px = 0)) as [-> |]; [| lia].
        destruct (decide (py = 0)) as [-> |]; [done | lia]. }
      assert (Hch' : chain (advance h 1 (_pending_dir s) :: h :: rest)).
      { by split. }
      split_and!; try done.
      * by apply unit_dir_not_self_opposite.
      * destruct Hs as [-> | ->]; [done | by apply chain_removelast].
      * intros Hlive. destruct (Hneck Hlive) as (h0 & n0 & rest0 & [= -> ->] & _).
        destruct Hs as [-> | ->].
        -- eexists _, _, _. split; [done |]. done.
        -- cbn. eexists _, _, _. split; [done |]. done.
Qed.

(** X4. The snake never reverses.  In every reachable state [_dir] and
    [_pending_dir] are among the eight unit directions and the pending
    direction is not the exact negation of the current one; while the
    game is live the second cell of the body lies directly behind the
    head, so the cell the next step enters is never that second cell. *)
Theorem never_reverses (self : SnakeGame) :
  reachable self →
  unit_dir (_dir self) ∧ unit_dir (_pending_dir self)
  ∧ _pending_dir self ≠ opposite (_dir self)
  ∧ (gameOver self = false →
     ∃ h n rest,
       snake self = h :: n :: rest
       ∧ h = advance n 1 (_dir self)
       ∧ next_head self = Some (advance h 1 (_pending_dir self))
       ∧ advance h 1 (_pending_dir self) ≠ n).
Proof.
  intros Hr.
  destruct (reachable_directed self Hr) as (Hd & Hp & Hne & _ & Hneck).
  split_and!; try done. intros Hlive.
  destruct (Hneck Hlive) as (h & n & rest & Hs & Hh).
  exists h, n, rest. split_and!; try done.
  - by eapply next_head_cons.
  - intros Hback. apply Hne. rewrite Hh in Hback.
    destruct n as [nx ny], (_dir self) as [dx dy], (_pending_dir self) as [px py].
    unfold advance, opposite in *. cbn in *. injection Hback as H1 H2.
    f_equal; lia.
Qed.

Lemma never_reverses_witness :
  unit_dir (_dir fed_game) ∧ unit_dir (_pending_dir fed_game)
  ∧ _pending_dir fed_game ≠ opposite (_dir fed_game)
  ∧ (gameOver fed_game = false →
     ∃ h n rest,
       snake fed_game = h :: n :: rest
       ∧ h = advance n 1 (_dir fed_game)
       ∧ next_head fed_game = Some (advance h 1 (_pending_dir fed_game))
       ∧ advance h 1 (_pending_dir fed_game) ≠ n).
Proof. apply (never_reverses fed_game fed_game_reachable). Defined.

(** X5. The body of a reachable state is a chain: each cell is one king
    move (horizontal, vertical or diagonal) away from the next. *)
Theorem body_is_a_chain (self : SnakeGame) : reachable self → chain (snake self).
Proof.
  intros Hr. by destruct (reachable_directed self Hr) as (_ & _ & _ & Hch & _).
Qed.

Lemma body_is_a_chain_witness : chain (snake fed_game).
Proof. apply (body_is_a_chain fed_game fed_game_reachable). Defined.

(** ** Where the food is *)

Lemma in_food_iff (s : SnakeGame) (c : Cell) :
  in_food s c = true ↔ c ∈ _food_cells_list (food_tl s).
Proof. unfold in_food. by rewrite bool_decide_eq_true, elem_of_list_to_set. Qed.

Lemma _random_food_location_cases (self : SnakeGame) (g : RNG)
  (s' : SnakeGame) (g' : RNG) :
  3 ≤ grid_w self → 3 ≤ grid_h self →
  _random_food_location self g = Ok (s', g') →
  ∃ tl, s' = set_food_tl tl self
        ∧ block_inside self tl
        ∧ ((food_candidates self ≠ [] ∧ block_free self tl)
           ∨ (food_candidates self = [] ∧ tl = center_block self)).
Proof.
  intros Hw Hh. unfold _random_food_location, food_cells.
  assert ((grid_w self <? 3) || (grid_h self <? 3) = false) as ->.
  { apply orb_false_intro; apply Z.ltb_ge; lia. }
  destruct (food_candidates self) as [| c0 cs] eqn:Hcand.
  - intros [= <- <-]. eexists. split; [reflexivity |].
    assert (Hmax : ∀ n, 3 ≤ n → Z.max 0 ((n - 3) / 2) = (n - 3) / 2).
    { intros n Hn. apply Z.max_r. apply Z.div_pos; lia. }
    rewrite !Hmax by done. split; [| by right].
    apply block_inside_bounds. Z.div_mod_to_equations. lia.
  - destruct (random_choice_ok (c0 :: cs) g) as (tl & Hch & Hin); [done |].
    rewrite Hch. cbn. intros [= <- <-]. exists tl. split; [done |].
    rewrite <- Hcand in Hin. apply food_candidates_spec in Hin as [Hi Hf].
    split; [done |]. by left.
Qed.

Lemma move_once_food (now : Q) (s : SnakeGame) (g : RNG) (c : Cell)
  (s' : SnakeGame) (g' : RNG) :
  next_head s = Some c → collides s c = false →
  move_once now s g = Ok (Continue, s', g') →
  (in_food s c = false ∧ food_tl s' = food_tl s)
  ∨ (in_food s c = true
     ∧ ∃ mid g0, snake mid = c :: snake s
                 ∧ grid_w mid = grid_w s ∧ grid_h mid = grid_h s
                 ∧ _random_food_location mid g = Ok (set_food_tl (food_tl s') mid, g0)).
Proof.
  unfold next_head, move_once, collides. cbn [snake set_dir].
  destruct (snake s) as [| [hx hy] tl] eqn:Hs; [done |].
  intros [= <-] Hc.
  set (c := (hx + fst (_pending_dir s), hy + snd (_pending_dir s))).
  match goal with |- (if ?b then _ else _) = _ → _ =>
    assert (b = false) as -> by exact Hc end.
  match goal with |- context [mbind _ (if ?b then _ else _)] =>
    change b with (in_food s c) end.
  destruct (in_food s c); cbn.
  - match goal with |- context [_random_food_location ?m ?g] =>
      set (mid := m);
      destruct (_random_food_location_ok mid g) as (tl' & g1 & Hrf) end.
    rewrite Hrf. cbn. intros Hm. right. split; [done |].
    exists mid, g1. split; [by subst mid; cbn; rewrite ?Hs |].
    split; [done |]. split; [done |]. rewrite Hrf. do 2 f_equal.
    destruct (0 <? _grow s + 2); cbn in Hm; rewrite ?Hs in Hm;
      injection Hm as <- <-; done.
  - intros Hm. left. split; [done |].
    destruct (0 <? _grow s); cbn in Hm; rewrite ?Hs in Hm;
      injection Hm as <- <-; done.
Qed.

Lemma block_free_step (s s' : SnakeGame) (c : Cell) (tl : Cell) :
  (snake s' = c :: snake s ∨ snake s' = removelast (c :: snake s)) →
  (∀ x, x ∈ _food_cells_list tl → x ∉ c :: snake s) →
  block_free s' tl.
Proof.
  intros Hs Hfree x Hx Hin. apply (Hfree x Hx).
  destruct Hs as [Hs | Hs]; rewrite Hs in Hin; [done |].
  rewrite removelast_firstn_len in Hin.
  eapply elem_of_sublist; [exact Hin | apply sublist_take].
Qed.





(** ** Movement within one call *)

Lemma advance_0 (h d : Cell) : advance h 0 d = h.
Proof. destruct h. unfold advance. cbn [fst snd]. f_equal; lia. Qed.

Lemma advance_S (h d : Cell) (n : nat) :
  advance (advance h 1 d) (Z.of_nat n) d = advance h (Z.of_nat (S n)) d.
Proof. unfold advance. cbn [fst snd]. f_equal; lia. Qed.

Lemma step_effect_head (s : SnakeGame) (c : Cell) (s' : SnakeGame) :
  snake s ≠ [] → step_effect s c s' → ∃ rest', snake s' = c :: rest'.
Proof.
  intros Hne He. destruct (step_effect_snake _ _ _ He) as [-> | ->]; [by eexists |].
  destruct (snake s) as [| h rest]; [done |]. cbn. by eexists.
Qed.

Lemma applied_line (now : Q) (n : nat) (s : SnakeGame) (g : RNG)
  (s' : SnakeGame) (g' : RNG) :
  applied now n s g s' g' →
  ∀ h rest, snake s = h :: rest →
  ∃ rest', snake s' = advance h (Z.of_nat n) (_pending_dir s) :: rest'
           ∧ _pending_dir s' = _pending_dir s
           ∧ score s ≤ score s' ≤ score s + Z.of_nat n
           ∧ (length (snake s) ≤ length (snake s') ≤ length (snake s) + n)%nat.
Proof.
  induction 1 as [s g | n s g s1 g1 s' g' Hm _ IH]; intros h rest Hs.
  { exists rest. rewrite advance_0. split_and!; try done; lia. }
  destruct (move_once_cases _ _ _ _ _ _ Hm)
    as (c & Hc & [(_ & ? & _) | (Hcol & _ & He)]); [done |].
  rewrite (next_head_cons s h rest Hs) in Hc. injection Hc as <-.
  set (c := advance h 1 (_pending_dir s)) in *.
  destruct (step_effect_head s c s1) as [rest1 Hs1]; [by rewrite Hs | done |].
  pose proof (step_effect_length _ _ _ He) as Hl.
  destruct He as (_ & _ & Hsc & _ & _ & Hp & _).
  destruct (IH _ _ Hs1) as (rest' & Hs' & Hp' & Hsc' & Hl').
  exists rest'. rewrite Hp in Hs', Hp'. subst c. rewrite advance_S in Hs'.
  split_and!; try done.
  - destruct (in_food s _); lia.
  - destruct (in_food s _); lia.
  - destruct (0 <? _); lia.
  - destruct (0 <? _); lia.
Qed.

Lemma update_line (self s1 : SnakeGame) (now : Q) (p : option (Z * Z)) (g : RNG)
  (h : Cell) (rest : list Cell) :
  gameOver self = false → snake self = h :: rest →
  handle_pointer self now p = Ok s1 →
  ∃ s' g' k rest',
    update self now p g = Ok (s', g')
    ∧ (k ≤ 3)%nat
    ∧ snake s' = advance h (Z.of_nat k) (_pending_dir s1) :: rest'
    ∧ score self ≤ score s' ≤ score self + Z.of_nat k
    ∧ (length (snake self) ≤ length (snake s') ≤ length (snake self) + k)%nat.
Proof.
  intros Hover Hs Hp.
  destruct (handle_pointer_frame _ _ _ _ Hp) as (Hs1 & _ & Hsc1 & _).
  rewrite Hs in Hs1. rewrite Hs. rewrite <- Hsc1.
  assert (Hidle : update self now p g = Ok (s1, g) →
    ∃ s' g' k rest',
      update self now p g = Ok (s', g') ∧ (k ≤ 3)%nat
      ∧ snake s' = advance h (Z.of_nat k) (_pending_dir s1) :: rest'
      ∧ score s1 ≤ score s' ≤ score s1 + Z.of_nat k
      ∧ (length (h :: rest) ≤ length (snake s') ≤ length (h :: rest) + k)%nat).
  { intros Hu. exists s1, g, 0%nat, rest. rewrite advance_0, Hs1.
    split_and!; try done; lia. }
  destruct (_paused s1) eqn:Hpa.
  { apply Hidle. apply update_idles; auto. }
  destruct (Qlt_le_dec (now - _last_move_t s1) move_interval) as [Hlt | Hle].
  { apply Hidle. apply update_idles; auto. }
  rewrite (update_moves self s1 now p g Hover Hp Hpa Hle).
  pose proof (catch_up_steps_le now s1) as Hn.
  set (n := Z.to_nat (catch_up_steps now s1)) in *.
  assert (Hn3 : (n ≤ 3)%nat) by (subst n; lia). clearbody n.
  destruct (move_loop_outcome n now s1 g) as (s2 & g2 & Hl & Hout);
    [by rewrite Hs1 |].
  rewrite Hl. cbn.
  destruct Hout as [[Ha _] | (k & sk & gk & Hk & Ha & Hb & _)].
  - destruct (applied_line _ _ _ _ _ _ Ha h rest Hs1) as (rest' & H1 & _ & H2 & H3).
    exists (set_last_move_t now s2), g2, n, rest'. cbn. rewrite Hs1 in H3.
    cbn [length] in H3. split_and!; try done; lia.
  - destruct (applied_line _ _ _ _ _ _ Ha h rest Hs1) as (rest' & H1 & _ & H2 & H3).
    destruct (move_once_cases _ _ _ _ _ _ Hb)
      as (c & Hc & [(_ & _ & _ & ->) | (_ & ? & _)]); [| done].
    exists (set_last_move_t now (set_gameOver true (set_dir (_pending_dir sk) sk))),
      g2, k, rest'.
    cbn. rewrite Hs1 in H3. cbn [length] in H3. split_and!; try done; lia.
Qed.

(** X8. One call of [update] on a live game moves the head along a
    straight line: by [k <= 3] cells in the pending direction left by
    the pointer handling of that call.  The score rises by at most [k]
    and the body grows by at most [k] cells; neither ever drops. *)
Theorem update_moves_straight (self s1 : SnakeGame) (now : Q)
  (p : option (Z * Z)) (g : RNG) (h : Cell) (rest : list Cell) :
  gameOver self = false → snake self = h :: rest →
  handle_pointer self now p = Ok s1 →
  ∃ s' g' k rest',
    update self now p g = Ok (s', g')
    ∧ (k ≤ 3)%nat
    ∧ snake s' = advance h (Z.of_nat k) (_pending_dir s1) :: rest'
    ∧ score self ≤ score s' ≤ score self + Z.of_nat k
    ∧ (length (snake self) ≤ length (snake s') ≤ length (snake self) + k)%nat.
Proof. apply update_line. Qed.

Lemma update_moves_straight_witness :
  let self := fresh_game (10, 3) in
  let s1 := set_pending_dir (1, -1) (set_paused false (set_last_hand_seen_t 0.3 self)) in
  ∃ s' g' k rest',
    update self 0.3 (Some (400, 100)) (rng_const 0) = Ok (s', g')
    ∧ (k ≤ 3)%nat
    ∧ snake s' = advance (9, 4) (Z.of_nat k) (_pending_dir s1) :: rest'
    ∧ score self ≤ score s' ≤ score self + Z.of_nat k
    ∧ (length (snake self) ≤ length (snake s') ≤ length (snake self) + k)%nat.
Proof.
  intros self s1.
  apply (update_moves_straight self s1 0.3 (Some (400, 100)) (rng_const 0)
           (9, 4) [(8, 4); (7, 4)]); reflexivity.
Defined.

(** The same call evaluated: two cells up-right, the first of them onto
    the food. *)
Example two_cells_up_right :
  ∃ s' g', update (fresh_game (10, 3)) 0.3 (Some (400, 100)) (rng_const 0)
           = Ok (s', g')
           ∧ snake s' = [(11, 2); (10, 3); (9, 4); (8, 4); (7, 4)]
           ∧ score s' = 1.
Proof. eexists _, _. split; [vm_compute; reflexivity | done]. Qed.

(** ** The call that resumes a paused game *)

Lemma advance_next (h d : Cell) (k : nat) :
  advance (advance h (Z.of_nat k) d) 1 d = advance h (Z.of_nat (S k)) d.
Proof. unfold advance. cbn [fst snd]. f_equal; lia. Qed.

Lemma applied_dir (now : Q) (n : nat) (s : SnakeGame) (g : RNG)
  (s' : SnakeGame) (g' : RNG) :
  applied now n s g s' g' → (0 < n)%nat → _dir s' = _pending_dir s.
Proof.
  induction 1 as [s g | n s g s1 g1 s' g' Hm Ha IH]; intros Hn; [lia |].
  destruct (move_once_cases _ _ _ _ _ _ Hm)
    as (c & _ & [(_ & ? & _) | (_ & _ & He)]); [done |].
  destruct He as (_ & _ & _ & _ & Hd & Hp & _).
  destruct n as [| n].
  - inversion Ha; subst. done.
  - rewrite <- Hp. apply IH. lia.
Qed.

Lemma paused_at_wall_reachable_at : reachable_at paused_at_wall 2.
Proof.
  eapply (at_update _ 1.2 2 None (rng_const 0) paused_at_wall (rng_const 0)).
  - eapply (at_update _ 0.8 1.2 (Some (600, 187)) (rng_const 0)).
    + eapply (at_update _ 0.4 0.8 (Some (600, 187)) (rng_const 0)).
      * eapply (at_update (fresh_game (0, 0)) 0 0.4 (Some (600, 187)) (rng_const 0)).
        -- apply (at_reset (fresh_game (0, 0)) 0 0 (rng_const 0)
                    (fresh_game (0, 0)) (rng_const 0)); [by vm_compute |].
           vm_compute. reflexivity.
        -- by vm_compute.
        -- vm_compute. reflexivity.
      * by vm_compute.
      * vm_compute. reflexivity.
    + by vm_compute.
    + vm_compute. reflexivity.
  - by vm_compute.
  - vm_compute. reflexivity.
Qed.

(** A resumed call that executes no step.  The game is paused with the
    head at [(18, 4)] on a grid 19 cells wide, heading right, the last
    tick at reading 1.2.  The pointer comes back at reading 3, more than
    three intervals after the reading 2 at which the game was paused.
    The loop count is 3, but the first iteration finds the cell
    [(19, 4)] off the board: the call sets [gameOver] and leaves the
    body where it was. *)
Lemma resume_into_wall :
  reachable_at paused_at_wall 2
  ∧ _paused paused_at_wall = true
  ∧ (2 + 3 * move_interval <= 3)%Q
  ∧ catch_up_steps 3 paused_at_wall = 3
  ∧ ∃ s' g',
      update paused_at_wall 3 (Some (600, 187)) (rng_const 0) = Ok (s', g')
      ∧ gameOver s' = true
      ∧ snake s' = snake paused_at_wall
      ∧ snake s' = [(18, 4); (17, 4); (16, 4)]
      ∧ grid_w s' = 19.
Proof.
  split; [exact paused_at_wall_reachable_at |]. split; [reflexivity |].
  split; [by vm_compute |]. split; [reflexivity |].
  eexists _, _. split; [vm_compute; reflexivity |]. by repeat split.
Qed.

(** C10. A paused game does not advance [_last_move_t]: calls without a
    pointer leave the whole object as it is.  So when the pointer comes
    back at least three intervals after a clock reading [t_p] at which
    the game was paused, that single call is unpaused, records the
    reading as last signal and last tick, and runs the loop with count
    3.  The head moves [k] cells along the pending direction left by the
    pointer, with [k = 3] when the game is still live after the call;
    otherwise [k < 3] and the next cell on that line failed the
    collision test of line 333, which ended the loop and the game. *)
Theorem resume_after_pause_catches_up (self : SnakeGame) (t_p : Q) :
  reachable_at self t_p → _paused self = true →
  ∀ (idle : list (Q * option (Z * Z))) (t_r : Q) (p : Z * Z) (g : RNG),
    Forall (λ c, snd c = None) idle →
    (t_p + 3 * move_interval <= t_r)%Q →
    run self idle g = Ok (self, g)
    ∧ ∃ h rest s1 s' g' k rest',
        snake self = h :: rest
        ∧ handle_pointer self t_r (Some p) = Ok s1
        ∧ catch_up_steps t_r s1 = 3
        ∧ run self (idle ++ [(t_r, Some p)]) g = Ok (s', g')
        ∧ (k ≤ 3)%nat
        ∧ snake s' = advance h (Z.of_nat k) (_pending_dir s1) :: rest'
        ∧ _pending_dir s' = _pending_dir s1
        ∧ _dir s' = _pending_dir s1
        ∧ _paused s' = false
        ∧ _last_move_t s' = t_r
        ∧ _last_hand_seen_t s' = t_r
        ∧ score self ≤ score s' ≤ score self + Z.of_nat k
        ∧ (length (snake self) ≤ length (snake s') ≤ length (snake self) + k)%nat
        ∧ (gameOver s' = false → k = 3%nat)
        ∧ (gameOver s' = true →
           (k < 3)%nat
           ∧ collides s' (advance h (Z.of_nat (S k)) (_pending_dir s1)) = true).
Proof.
  intros Hat Hpa idle t_r p g Hidle Hlate.
  pose proof (reachable_sound self (reachable_at_reachable self t_p Hat))
    as (Hne & _ & Hop).
  assert (Hover : gameOver self = false).
  { destruct (gameOver self); [| done]. rewrite Hop in Hpa; done. }
  pose proof (run_paused_absent self idle g Hover Hpa Hidle) as Hrun.
  split; [done |].
  destruct (snake self) as [| h rest] eqn:Hs; [done |].
  destruct (handle_pointer_ok self t_r (Some p)) as [s1 Hp]; [by rewrite Hs |].
  destruct (handle_pointer_frame _ _ _ _ Hp)
    as (Hs1 & _ & Hsc1 & _ & Hov1 & Ht & _).
  rewrite Hs in Hs1.
  assert (_paused s1 = false ∧ _last_hand_seen_t s1 = t_r) as [Hpa1 Hseen1].
  { cbn in Hp. apply _update_direction_from_finger_frame in Hp as [d ->]. by cbn. }
  assert (H3 : (3 * move_interval <= t_r - _last_move_t s1)%Q).
  { rewrite Ht. pose proof (reachable_at_tick_le self t_p Hat) as Hle. lra. }
  destruct (move_loop_outcome 3 t_r s1 g) as (s2 & g2 & Hl & Hout);
    [by rewrite Hs1 |].
  destruct (move_loop_keeps _ _ _ _ _ _ Hl) as (Hpa2 & Hseen2 & _).
  assert (Hu : run self (idle ++ [(t_r, Some p)]) g
               = Ok (set_last_move_t t_r s2, g2)).
  { rewrite (run_app self idle [(t_r, Some p)] g self g Hrun). cbn [run].
    rewrite (update_moves self s1 t_r (Some p) g Hover Hp Hpa1).
    - rewrite (catch_up_steps_full t_r s1 H3).
      change (Z.to_nat 3) with 3%nat. by rewrite Hl.
    - eapply Qle_trans; [| exact H3]. by vm_compute. }
  destruct Hout as [[Ha Hgo] | (k & sk & gk & Hk & Ha & Hb & Hgo)].
  - destruct (applied_line _ _ _ _ _ _ Ha h rest Hs1)
      as (rest' & Hsn & Hpd & Hsc & Hlen).
    pose proof (applied_dir _ _ _ _ _ _ Ha ltac:(lia)) as Hd.
    exists h, rest, s1, (set_last_move_t t_r s2), g2, 3%nat, rest'.
    rewrite Hs1 in Hlen. cbn -[advance Z.of_nat].
    cbn [length] in *.
    split_and!; try done; try lia; try congruence.
    by apply catch_up_steps_full.
  - destruct (applied_line _ _ _ _ _ _ Ha h rest Hs1)
      as (rest' & Hsn & Hpd & Hsc & Hlen).
    destruct (move_once_cases _ _ _ _ _ _ Hb)
      as (c & Hc & [(Hcol & _ & _ & ->) | (_ & ? & _)]); [| done].
    rewrite (next_head_cons sk _ _ Hsn), Hpd, advance_next in Hc.
    injection Hc as <-.
    exists h, rest, s1,
      (set_last_move_t t_r (set_gameOver true (set_dir (_pending_dir sk) sk))),
      g2, k, rest'.
    rewrite Hs1 in Hlen. cbn -[advance Z.of_nat] in *.
    split_and!; try done; try lia; try congruence.
    by apply catch_up_steps_full.
Qed.

(** The fresh game paused at reading 0.7 and resumed at reading 1.06:
    nothing is in the way and the head goes three cells to the right
    in the one call. *)
Lemma resume_after_pause_catches_up_witness :
  let self := set_paused true (fresh_game (0, 0)) in
  run self [(0.8%Q, None); (0.9%Q, None)] (rng_const 0) = Ok (self, rng_const 0)
  ∧ ∃ s' g' rest',
      run self ([(0.8%Q, None); (0.9%Q, None)] ++ [(1.06%Q, Some (400, 187))])
          (rng_const 0)
      = Ok (s', g')
      ∧ gameOver s' = false
      ∧ snake s' = (12, 4) :: rest'
      ∧ _paused s' = false
      ∧ _last_move_t s' = 1.06%Q.
Proof.
  intros self.
  assert (Hat : reachable_at self 0.7).
  { apply (at_update (fresh_game (0, 0)) 0 0.7 None (rng_const 0) self (rng_const 0)).
    - apply (at_reset (fresh_game (0, 0)) 0 0 (rng_const 0)
               (fresh_game (0, 0)) (rng_const 0)); [by vm_compute |].
      vm_compute. reflexivity.
    - by vm_compute.
    - vm_compute. reflexivity. }
  assert (Hnone : Forall (λ c : Q * option (Z * Z), snd c = None)
                    [(0.8%Q, None); (0.9%Q, None)]).
  { repeat (apply Forall_cons; split; [reflexivity |]). apply Forall_nil. done. }
  assert (Hlate : (0.7 + 3 * move_interval <= 1.06)%Q) by (by vm_compute).
  destruct (resume_after_pause_catches_up self 0.7 Hat eq_refl
              [(0.8%Q, None); (0.9%Q, None)] 1.06 (400, 187) (rng_const 0)
              Hnone Hlate)
    as (Hidle & h & rest & s1 & s' & g' & k & rest' & Hs & Hp & _ & Hrun & _
        & Hsn & _ & _ & Hpa & Hlm & _ & _ & _ & Hlive & _).
  split; [done |]. exists s', g', rest'.
  assert (Hgo : gameOver s' = false).
  { vm_compute in Hrun. by injection Hrun as <- <-. }
  injection Hs as <- <-. vm_compute in Hp. injection Hp as <-.
  rewrite (Hlive Hgo) in Hsn. by split_and!.
Defined.

(** The resumed call evaluated: three cells in one call. *)
Example resume_moves_three_cells :
  ∃ s' g',
    update (set_paused true (fresh_game (0, 0))) 1.06 (Some (320, 187)) (rng_const 0)
    = Ok (s', g')
    ∧ snake s' = [(12, 4); (11, 4); (10, 4)]
    ∧ _paused s' = false.
Proof. eexists _, _. split; [vm_compute; reflexivity | done]. Qed.

(** ** Across calls *)

Lemma update_never_shrinks (self : SnakeGame) (now : Q) (p : option (Z * Z))
  (g : RNG) :
  snake self ≠ [] →
  ∃ s' g', update self now p g = Ok (s', g')
           ∧ snake s' ≠ []
           ∧ score self ≤ score s'
           ∧ (length (snake self) ≤ length (snake s'))%nat
           ∧ (gameOver self = true → gameOver s' = true).
Proof.
  intros Hne. destruct (gameOver self) eqn:Hover.
  { rewrite update_over by done. eexists _, _. by split_and!. }
  destruct (snake self) as [| h rest] eqn:Hs; [done |].
  destruct (handle_pointer_ok self now p) as [s1 Hp]; [by rewrite Hs |].
  destruct (update_line self s1 now p g h rest Hover Hs Hp)
    as (s' & g' & k & rest' & Hu & _ & Hs' & Hsc & Hl).
  exists s', g'. rewrite <- Hs. split_and!; try done; try lia.
  by rewrite Hs'.
Qed.

(** X9. Along any sequence of [update] calls from a reachable state the
    score and the length of the body never decrease, and a game that is
    over stays over. *)
Theorem nothing_shrinks (self : SnakeGame) (calls : list (Q * option (Z * Z)))
  (g : RNG) :
  reachable self →
  ∃ s' g', run self calls g = Ok (s', g')
           ∧ score self ≤ score s'
           ∧ (length (snake self) ≤ length (snake s'))%nat
           ∧ (gameOver self = true → gameOver s' = true).
Proof.
  intros Hr. destruct (reachable_sound self Hr) as (Hne & _). clear Hr.
  revert self g Hne. induction calls as [| [now p] rest IH]; intros self g Hne; cbn.
  { eexists _, _. by split_and!. }
  destruct (update_never_shrinks self now p g Hne)
    as (s1 & g1 & Hu & Hne1 & Hsc1 & Hl1 & Hov1).
  rewrite Hu. cbn.
  destruct (IH s1 g1 Hne1) as (s' & g' & Hrun & Hsc & Hl & Hov).
  exists s', g'. split_and!; try done; try lia. auto.
Qed.

Lemma nothing_shrinks_witness :
  ∃ s' g', run fed_game [(0.5%Q, Some (0, 0)); (0.9%Q, None); (1.7%Q, None)]
             (rng_const 2)
           = Ok (s', g')
           ∧ score fed_game ≤ score s'
           ∧ (length (snake fed_game) ≤ length (snake s'))%nat
           ∧ (gameOver fed_game = true → gameOver s' = true).
Proof. apply (nothing_shrinks fed_game _ _ fed_game_reachable). Defined.

Lemma update_moved_or_not (self : SnakeGame) (now : Q) (p : option (Z * Z))
  (g : RNG) (s' : SnakeGame) (g' : RNG) :
  update self now p g = Ok (s', g') →
  (snake s' = snake self ∧ score s' = score self) ∨ _last_move_t s' = now.
Proof.
  unfold update. destruct (gameOver self); [intros [= <- <-]; by left |].
  destruct (handle_pointer self now p) as [s1 | e] eqn:Hp; [| done]. cbn.
  destruct (handle_pointer_frame _ _ _ _ Hp) as (Hs & _ & Hsc & _).
  destruct (_ && _); [| intros [= <- <-]; by left].
  destruct (move_loop _ now s1 g) as [[s2 g2] | e]; [| done]. cbn.
  intros [= <- <-]. by right.
Qed.

(** X10. The tick throttle.  After a call of [update] that changed the
    body, no call made at most 0.119 s later moves the snake or changes
    the score, whatever its pointer.  (The interval is 0.12 s; the
    margin keeps the binary64 test of line 323 on the side of the exact
    one, see [interval_test_rounds_up].) *)
Theorem one_burst_per_interval (self : SnakeGame) (now : Q) (p : option (Z * Z))
  (g : RNG) (s' : SnakeGame) (g' : RNG) :
  reachable self → update self now p g = Ok (s', g') → snake s' ≠ snake self →
  ∀ (now2 : Q) (p2 : option (Z * Z)) (g2 : RNG),
    (now2 - now <= 0.119)%Q →
    ∃ s'', update s' now2 p2 g2 = Ok (s'', g2)
           ∧ snake s'' = snake s' ∧ score s'' = score s'
           ∧ food_tl s'' = food_tl s' ∧ gameOver s'' = gameOver s'.
Proof.
  intros Hr Hu Hmoved now2 p2 g2 Hsoon.
  destruct (update_moved_or_not _ _ _ _ _ _ Hu) as [[Hs _] | Ht]; [done |].
  assert (Hr' : reachable s') by (by eapply reachable_update).
  destruct (reachable_sound s' Hr') as (Hne & _).
  destruct (gameOver s') eqn:Hover.
  { exists s'. by rewrite update_over. }
  destruct (handle_pointer_ok s' now2 p2 Hne) as [s1 Hp].
  destruct (handle_pointer_frame _ _ _ _ Hp) as (Hs1 & _ & Hsc1 & Hf1 & Hov1 & Ht1 & _).
  exists s1. rewrite (update_idles s' s1 now2 p2 g2 Hover Hp).
  - split_and!; try done. by rewrite Hov1.
  - right. rewrite Ht1, Ht. eapply Qle_lt_trans; [exact Hsoon | done].
Qed.

Lemma one_burst_per_interval_witness :
  ∃ s' g',
    update (fresh_game (10, 3)) 0.15 None (rng_const 0) = Ok (s', g')
    ∧ ∃ s'', update s' 0.26 (Some (0, 0)) (rng_const 5) = Ok (s'', rng_const 5)
             ∧ snake s'' = snake s' ∧ score s'' = score s'
             ∧ food_tl s'' = food_tl s' ∧ gameOver s'' = gameOver s'.
Proof.
  eexists _, _. split; [vm_compute; reflexivity |].
  eapply (one_burst_per_interval (fresh_game (10, 3)) 0.15 None (rng_const 0)).
  - apply (reachable_reset (fresh_game (0, 0)) 0 0 (rng_const 48)
             (fresh_game (10, 3)) (rng_const 48)).
    vm_compute. reflexivity.
  - vm_compute. reflexivity.
  - by vm_compute.
  - by vm_compute.
Defined.

(** The throttle as the interpreter computes it.  The last tick is at
    the reading written [0.2] and the next call at the reading written
    [0.32].  As numbers the two readings are less than 0.12 apart, yet
    their binary64 difference is not below the binary64 constant
    [0.12]: the test of line 323 is true and the snake moves. *)
Example interval_test_rounds_up :
  ∃ t0 t1 : Q,
    binary64_value reading_0_2 = Some t0
    ∧ binary64_value reading_0_32 = Some t1
    ∧ (t1 - t0 < move_interval)%Q
    ∧ move_due_binary64 false reading_0_2 reading_0_32 = true.
Proof.
  eexists _, _. split; [vm_compute; reflexivity |].
  split; [vm_compute; reflexivity |]. split; [by vm_compute |].
  vm_compute. reflexivity.
Qed.

(** X11. Once the pointer has been away for at least 0.61 s, any number
    of [update] calls without it on a live game does nothing but set
    [_paused]: body, score, food, directions and both timestamps are
    those before the first call.  (The window is 0.6 s; the margin
    keeps the binary64 test of line 319 on the side of the exact one,
    see [pause_test_rounds_down].) *)
Theorem pause_is_idempotent (self : SnakeGame) (now : Q)
  (later : list (Q * option (Z * Z))) (g : RNG) :
  gameOver self = false →
  (0.61 <= now - _last_hand_seen_t self)%Q →
  Forall (λ c, snd c = None) later →
  ∃ s', run self ((now, None) :: later) g = Ok (s', g)
        ∧ _paused s' = true ∧ same_but_paused self s'.
Proof.
  intros Hover Hlate Hlater. exists (set_paused true self).
  split; [| by repeat split]. cbn [run].
  rewrite (update_idles self (set_paused true self) now None g);
    [| done | | by left].
  - cbn. by apply run_paused_absent.
  - apply handle_pointer_absent_beyond. eapply Qlt_le_trans; [| exact Hlate]. done.
Qed.

Lemma pause_is_idempotent_witness :
  ∃ s', run fed_game [(1%Q, None); (1.1%Q, None); (5%Q, None)] (rng_const 1)
        = Ok (s', rng_const 1)
        ∧ _paused s' = true ∧ same_but_paused fed_game s'.
Proof.
  apply (pause_is_idempotent fed_game 1 [(1.1%Q, None); (5%Q, None)] (rng_const 1));
    [reflexivity | by vm_compute |].
  repeat (apply Forall_cons; split; [reflexivity |]). apply Forall_nil. done.
Defined.

(** ** What ends the game *)

Lemma collides_iff (s : SnakeGame) (c : Cell) :
  collides s c = true ↔ ¬ on_board s c ∨ c ∈ snake s.
Proof.
  split.
  - intros H. destruct (decide (c ∈ snake s)) as [| Hnin]; [by right |]. left.
    intros Hon. unfold collides, on_board in *.
    rewrite (bool_decide_eq_false_2 _ Hnin), orb_false_r in H.
    repeat (apply orb_true_iff in H as [H | H]);
      first [apply Z.ltb_lt in H | apply Z.leb_le in H]; lia.
  - intros H. destruct (collides s c) eqn:Hc; [done |].
    apply collides_false_on_board in Hc as [Hon Hnin]. by destruct H.
Qed.

(** X12. A step ends the game exactly when the cell it would enter is
    off the board or already part of the body.  It then sets [gameOver]
    and leaves body, score and food as they were (the wall case is
    Scenario B); otherwise the step goes on, with the new head that
    cell. *)
Theorem step_is_fatal_iff (now : Q) (self : SnakeGame) (g : RNG) (c : Cell) :
  next_head self = Some c →
  (¬ on_board self c ∨ c ∈ snake self →
   ∃ s', move_once now self g = Ok (Break, s', g)
         ∧ gameOver s' = true ∧ snake s' = snake self
         ∧ score s' = score self ∧ food_tl s' = food_tl self)
  ∧ (on_board self c ∧ c ∉ snake self →
     ∃ s' g' rest', move_once now self g = Ok (Continue, s', g')
                    ∧ gameOver s' = gameOver self ∧ snake s' = c :: rest').
Proof.
  intros Hc. split.
  - intros Hbad. apply collides_iff in Hbad.
    rewrite (move_once_collide now self g c Hc Hbad). by eexists.
  - intros [Hon Hnin].
    assert (Hcol : collides self c = false).
    { destruct (collides self c) eqn:E; [| done].
      apply collides_iff in E as [? | ?]; done. }
    destruct (move_once_advance now self g c Hc Hcol) as (s' & g' & Hm & He & _).
    destruct (step_effect_head self c s') as [rest' Hs']; [| done |].
    { unfold next_head in Hc. by destruct (snake self). }
    exists s', g', rest'. split; [done |]. split; [| done].
    by destruct He as (_ & _ & _ & _ & _ & _ & ? & _).
Qed.

Lemma step_is_fatal_iff_witness :
  let wall := set_snake [(18, 4); (17, 4); (16, 4)] (fresh_game (0, 0)) in
  (∃ s', move_once 0 wall (rng_const 0) = Ok (Break, s', rng_const 0)
         ∧ gameOver s' = true ∧ snake s' = snake wall
         ∧ score s' = score wall ∧ food_tl s' = food_tl wall)
  ∧ (∃ s' g' rest', move_once 0 fed_game (rng_const 0) = Ok (Continue, s', g')
                    ∧ gameOver s' = gameOver fed_game ∧ snake s' = (12, 2) :: rest').
Proof.
  intros wall. split.
  - destruct (step_is_fatal_iff 0 wall (rng_const 0) (19, 4) eq_refl) as [H _].
    apply H. left. unfold on_board. cbn. lia.
  - destruct (step_is_fatal_iff 0 fed_game (rng_const 0) (12, 2) eq_refl) as [_ H].
    apply H. split; [unfold on_board; cbn; lia |].
    cbn. rewrite !elem_of_cons, elem_of_nil. intros H'. by destruct_or?.
Defined.

(** ** The random choice of a food block *)

Lemma food_candidates_NoDup (self : SnakeGame) : NoDup (food_candidates self).
Proof.
  unfold food_candidates. apply NoDup_bind; [| | apply NoDup_seqZ].
  - intros x1 x2 c _ _ H1 H2.
    apply list_elem_of_bind in H1 as (y1 & H1 & _).
    apply list_elem_of_bind in H2 as (y2 & H2 & _).
    destruct (forallb _ _); [| by apply elem_of_nil in H1].
    destruct (forallb _ _); [| by apply elem_of_nil in H2].
    apply list_elem_of_singleton in H1, H2. congruence.
  - intros x _. apply NoDup_bind; [| | apply NoDup_seqZ].
    + intros y1 y2 c _ _ H1 H2.
      destruct (forallb _ _); [| by apply elem_of_nil in H1].
      destruct (forallb _ _); [| by apply elem_of_nil in H2].
      apply list_elem_of_singleton in H1, H2. congruence.
    + intros y _. destruct (forallb _ _); [apply NoDup_singleton | apply NoDup_nil_2].
Qed.

(** X13. Food placement is fair: the candidate list holds each free
    placement inside the grid exactly once, and for every such placement
    there is a draw of the generator for which [_random_food_location]
    picks it: it stores that placement in [food_tl] and changes no
    other attribute. *)
Theorem food_choice_is_fair (self : SnakeGame) (tl : Cell) :
  block_inside self tl → block_free self tl →
  NoDup (food_candidates self)
  ∧ tl ∈ food_candidates self
  ∧ ∃ r, (r < length (food_candidates self))%nat
         ∧ ∀ g, g 0%nat = r →
                ∃ s', _random_food_location self g = Ok (s', snd (rng_next g))
                      ∧ s' = set_food_tl tl self
                      ∧ food_tl s' = tl ∧ same_but_food self s'.
Proof.
  intros Hin Hfree. split; [apply food_candidates_NoDup |].
  assert (Hc : tl ∈ food_candidates self) by (by apply food_candidates_spec).
  split; [exact Hc |].
  apply list_elem_of_lookup in Hc as [i Hi].
  pose proof (lookup_lt_Some _ _ _ Hi) as Hlt.
  exists i. split; [exact Hlt |]. intros g Hg.
  destruct tl as [x y]. apply block_inside_bounds in Hin.
  unfold _random_food_location, food_cells.
  assert ((grid_w self <? 3) || (grid_h self <? 3) = false) as ->.
  { apply orb_false_intro; apply Z.ltb_ge; lia. }
  destruct (food_candidates self) as [| c0 cs] eqn:Hcand; [done |].
  unfold random_choice. cbn [rng_next snd]. rewrite Hg.
  rewrite Nat.mod_small by exact Hlt. rewrite Hi. cbn.
  eexists. split; [reflexivity |]. by repeat split.
Qed.

Lemma food_choice_is_fair_witness :
  NoDup (food_candidates fed_game)
  ∧ (12, 5) ∈ food_candidates fed_game
  ∧ ∃ r, (r < length (food_candidates fed_game))%nat
         ∧ ∀ g, g 0%nat = r →
                ∃ s', _random_food_location fed_game g = Ok (s', snd (rng_next g))
                      ∧ s' = set_food_tl (12, 5) fed_game
                      ∧ food_tl s' = (12, 5) ∧ same_but_food fed_game s'.
Proof.
  apply (food_choice_is_fair fed_game (12, 5)).
  - apply block_inside_bounds. by vm_compute.
  - intros c Hc. apply _food_cells_list_spec in Hc. cbn in Hc. cbn.
    rewrite !elem_of_cons, elem_of_nil. intros H.
    destruct_or?; try done; subst c; cbn in Hc; lia.
Defined.

(** ** The resolver and the head *)

(** X14. With a body the resolver never raises, and whatever the
    pointer it returns the object unchanged or changed in [_pending_dir]
    only, to one of the eight unit directions that is not the reverse of
    [_dir]: never [(0,0)], never a longer vector, never a 180 degree
    turn. *)
Theorem resolver_is_safe (self : SnakeGame) (p : Z * Z) :
  snake self ≠ [] →
  ∃ s1, _update_direction_from_finger self p = Ok s1
        ∧ (s1 = self
           ∨ ∃ cand, unit_dir cand ∧ cand ≠ opposite (_dir self)
                     ∧ s1 = set_pending_dir cand self).
Proof.
  intros Hne. destruct (_update_direction_from_finger_ok self p Hne) as [s1 H].
  exists s1. split; [exact H | exact (resolver_outcomes self p s1 H)].
Qed.

Lemma resolver_is_safe_witness :
  ∃ s1, _update_direction_from_finger fed_game (0, 0) = Ok s1
        ∧ (s1 = fed_game
           ∨ ∃ cand, unit_dir cand ∧ cand ≠ opposite (_dir fed_game)
                     ∧ s1 = set_pending_dir cand fed_game).
Proof. apply (resolver_is_safe fed_game (0, 0)). done. Defined.

(** X15. The deadzone covers the head's own cell: a pointer on any pixel
    of the square the head is drawn in leaves the object unchanged. *)
Theorem pointer_on_head_is_ignored (self : SnakeGame) (gx gy : Z)
  (rest : list Cell) (fx fy : Z) :
  snake self = (gx, gy) :: rest →
  let '(ox, oy) := _board_origin self in
  let '(px, py) := _cell_topleft ox oy (gx, gy) in
  px ≤ fx < px + cell → py ≤ fy < py + cell →
  _update_direction_from_finger self (fx, fy) = Ok self.
Proof.
  intros Hs. pose proof (_head_pixel_center_value self gx gy rest Hs) as Hc.
  destruct (_board_origin self) as [ox oy]. cbn [fst snd _cell_topleft] in *.
  intros Hx Hy. unfold _update_direction_from_finger.
  rewrite Hc. cbn [mbind result_bind]. cbn beta iota. rewrite !deadzone_test.
  unfold cell in *.
  assert ((Z.abs (fx - (ox + gx * 26 + 13)) <=? 14) = true) as ->
    by (apply Z.leb_le; lia).
  assert ((Z.abs (fy - (oy + gy * 26 + 13)) <=? 14) = true) as ->
    by (apply Z.leb_le; lia).
  done.
Qed.

Lemma pointer_on_head_is_ignored_witness :
  _update_direction_from_finger fed_game (359, 148) = Ok fed_game
  ∧ _update_direction_from_finger fed_game (384, 173) = Ok fed_game.
Proof.
  split.
  - apply (pointer_on_head_is_ignored fed_game 11 3 [(10, 4); (9, 4); (8, 4); (7, 4)]);
      [reflexivity | by vm_compute | by vm_compute].
  - apply (pointer_on_head_is_ignored fed_game 11 3 [(10, 4); (9, 4); (8, 4); (7, 4)]);
      [reflexivity | by vm_compute | by vm_compute].
Defined.

(** ** The board in the frame *)

Lemma __init___unfold (w h : Z) (t0 tm ts : Q) (g : RNG) :
  ∃ tl g',
    __init__ w h t0 tm ts g
    = Ok (set_food_tl tl
            (reset_fields
               {| game_w := w; game_h := h;
                  grid_w := Z.max 8 (Z.max 1 (w - 2 * margin_x) / cell);
                  grid_h := Z.max 8 (Z.max 1 (h - margin_top - margin_bottom) / cell);
                  score := 0; gameOver := false;
                  _eat_flash_until := 0; _last_move_t := t0;
                  _dir := (1, 0); _pending_dir := (1, 0); snake := [];
                  _grow := 0; _paused := false; _last_hand_seen_t := t0;
                  food_tl := (0, 0) |} tm ts), g').
Proof.
  unfold __init__. rewrite reset_unfold.
  match goal with |- context [_random_food_location ?s g] =>
    destruct (_random_food_location_ok s g) as (tl & g' & ->) end.
  by exists tl, g'.
Qed.

(** X16. In a frame of at least 348 x 498 pixels [__init__] builds a
    board that fits: the grid has [(w - 140) // 26] columns and
    [(h - 290) // 26] rows, at least 8 each, and the board rectangle
    lies between the side margins, below the top margin and above the
    bottom space reserved for the hand. *)
Theorem board_fits_frame (w h : Z) (t0 tm ts : Q) (g : RNG) :
  348 ≤ w → 498 ≤ h →
  ∃ s g',
    __init__ w h t0 tm ts g = Ok (s, g')
    ∧ grid_w s = (w - 140) / 26 ∧ grid_h s = (h - 290) / 26
    ∧ 8 ≤ grid_w s ∧ 8 ≤ grid_h s
    ∧ margin_x ≤ fst (_board_origin s)
    ∧ fst (_board_origin s) + grid_w s * cell ≤ w - margin_x
    ∧ margin_top ≤ snd (_board_origin s)
    ∧ snd (_board_origin s) + grid_h s * cell ≤ h - margin_bottom.
Proof.
  intros Hw Hh. destruct (__init___unfold w h t0 tm ts g) as (tl & g' & ->).
  eexists _, _. split; [reflexivity |].
  unfold _board_origin. cbn [game_w game_h grid_w grid_h set_food_tl reset_fields fst snd].
  unfold margin_x, margin_top, margin_bottom, hand_space_bottom, cell.
  change (2 * 70) with 140. change (70 + 150) with 220.
  replace (h - 70 - 220) with (h - 290) by lia.
  rewrite (Z.max_r 1 (w - 140)) by lia. rewrite (Z.max_r 1 (h - 290)) by lia.
  assert (8 ≤ (w - 140) / 26) by (apply Z.div_le_lower_bound; lia).
  assert (8 ≤ (h - 290) / 26) by (apply Z.div_le_lower_bound; lia).
  rewrite (Z.max_r 8 ((w - 140) / 26)) by lia.
  rewrite (Z.max_r 8 ((h - 290) / 26)) by lia.
  pose proof (Z.mul_div_le (w - 140) 26).
  pose proof (Z.mul_div_le (h - 290) 26).
  set (gw := (w - 140) / 26) in *. set (gh := (h - 290) / 26) in *.
  split_and!; try done; try lia.
  all: Z.div_mod_to_equations; lia.
Qed.

Lemma board_fits_frame_witness :
  ∃ s g',
    __init__ 1280 720 0 0 0 (rng_const 0) = Ok (s, g')
    ∧ grid_w s = (1280 - 140) / 26 ∧ grid_h s = (720 - 290) / 26
    ∧ 8 ≤ grid_w s ∧ 8 ≤ grid_h s
    ∧ margin_x ≤ fst (_board_origin s)
    ∧ fst (_board_origin s) + grid_w s * cell ≤ 1280 - margin_x
    ∧ margin_top ≤ snd (_board_origin s)
    ∧ snd (_board_origin s) + grid_h s * cell ≤ 720 - margin_bottom.
Proof. apply (board_fits_frame 1280 720 0 0 0 (rng_const 0)); by vm_compute. Defined.

(** X17. In a frame lower than 498 pixels the minimum of 8 rows makes
    the board taller than the usable area: it starts at the top margin
    and its bottom edge lies inside the space reserved for the hand (or
    below the frame). *)
Theorem low_frame_overflows (w h : Z) (t0 tm ts : Q) (g : RNG) :
  h < 498 →
  ∃ s g',
    __init__ w h t0 tm ts g = Ok (s, g')
    ∧ grid_h s = 8
    ∧ snd (_board_origin s) = margin_top
    ∧ h - margin_bottom < snd (_board_origin s) + grid_h s * cell.
Proof.
  intros Hh. destruct (__init___unfold w h t0 tm ts g) as (tl & g' & ->).
  eexists _, _. split; [reflexivity |].
  unfold _board_origin. cbn [game_w game_h grid_w grid_h set_food_tl reset_fields fst snd].
  unfold margin_x, margin_top, margin_bottom, hand_space_bottom, cell.
  change (70 + 150) with 220.
  assert (Hg : Z.max 8 (Z.max 1 (h - 70 - 220) / 26) = 8).
  { apply Z.max_l. apply Z.lt_succ_r. apply Z.div_lt_upper_bound; lia. }
  rewrite Hg. split; [done |].
  assert (Z.max 0 ((h - 70 - 220 - 8 * 26) / 2) = 0) as ->.
  { apply Z.max_l. Z.div_mod_to_equations. lia. }
  split; lia.
Qed.

Lemma low_frame_overflows_witness :
  ∃ s g',
    __init__ 640 480 0 0 0 (rng_const 0) = Ok (s, g')
    ∧ grid_h s = 8
    ∧ snd (_board_origin s) = margin_top
    ∧ 480 - margin_bottom < snd (_board_origin s) + grid_h s * cell.
Proof. apply (low_frame_overflows 640 480 0 0 0 (rng_const 0)). by vm_compute. Defined.

(** X18. The head is drawn where the pointer is measured from, and on
    the board: in a reachable state on a grid of at least 4 x 1 cells
    [_head_pixel_center] returns the pixel [_cell_center] gives for the
    head cell, and the 26 x 26 square around it lies inside the board
    rectangle. *)
Theorem head_pixel_on_board (self : SnakeGame) :
  reachable self → 4 ≤ grid_w self → 1 ≤ grid_h self →
  ∃ head rest px py,
    snake self = head :: rest
    ∧ _head_pixel_center self = Ok (px, py)
    ∧ _cell_center (fst (_board_origin self)) (snd (_board_origin self)) head
      = (px, py)
    ∧ fst (_board_origin self) ≤ px - 13
    ∧ px + 13 ≤ fst (_board_origin self) + grid_w self * cell
    ∧ snd (_board_origin self) ≤ py - 13
    ∧ py + 13 ≤ snd (_board_origin self) + grid_h self * cell.
Proof.
  intros Hr Hw Hh. pose proof (reachable_on_board self Hr Hw Hh) as Hon.
  destruct (reachable_sound self Hr) as (Hne & _).
  destruct (snake self) as [| [gx gy] rest] eqn:Hs; [done |].
  apply Forall_cons in Hon as [[Hx Hy] _]. cbn in Hx, Hy.
  exists (gx, gy), rest. eexists _, _. split; [done |].
  split; [by eapply _head_pixel_center_value |].
  unfold _cell_center. rewrite !py_int_half_cell. split; [done |].
  unfold cell. nia.
Qed.

Lemma head_pixel_on_board_witness :
  ∃ head rest px py,
    snake fed_game = head :: rest
    ∧ _head_pixel_center fed_game = Ok (px, py)
    ∧ _cell_center (fst (_board_origin fed_game)) (snd (_board_origin fed_game)) head
      = (px, py)
    ∧ fst (_board_origin fed_game) ≤ px - 13
    ∧ px + 13 ≤ fst (_board_origin fed_game) + grid_w fed_game * cell
    ∧ snd (_board_origin fed_game) ≤ py - 13
    ∧ py + 13 ≤ snd (_board_origin fed_game) + grid_h fed_game * cell.
Proof. apply (head_pixel_on_board fed_game fed_game_reachable); by vm_compute. Defined.

(** * The score store *)

Section ScoreStoreFacts.

Context (int_of_str : string → option Z).
Hypothesis int_of_empty : int_of_str "" = None.

Lemma _user_bucket_in_store (data : gmap string json) (u : option string)
  (b : json) (d1 : gmap string json) :
  _user_bucket data u = Return (b, d1) → in_store d1 u b.
Proof.
  unfold in_store, _user_bucket. destruct (named u) as [n |].
  - destruct (data !! "users") as [[| | | | | | users] |] eqn:Hu; try done.
    destruct (users !! n) as [b0 |] eqn:Hn.
    + intros [= <- <-]. by rewrite Hu, Hn.
    + intros [= <- <-]. rewrite lookup_insert_eq. by rewrite lookup_insert_eq.
  - destruct (data !! "guest") as [b0 |] eqn:Hg.
    + intros [= <- <-]. by rewrite Hg.
    + intros [= <- <-]. by rewrite lookup_insert_eq.
Qed.

Lemma in_store_put (d : gmap string json) (u : option string) (b b' : json) :
  in_store d u b → in_store (put_bucket d u b') u b'.
Proof.
  unfold in_store, _user_bucket, put_bucket. destruct (named u) as [n |].
  - destruct (d !! "users") as [[| | | | | | users] |] eqn:Hu; try done.
    intros _. rewrite lookup_insert_eq. by rewrite lookup_insert_eq.
  - intros _. by rewrite lookup_insert_eq.
Qed.

Lemma put_bucket_twice (d : gmap string json) (u : option string)
  (b b1 b2 : json) :
  in_store d u b → put_bucket (put_bucket d u b1) u b2 = put_bucket d u b2.
Proof.
  unfold in_store, _user_bucket, put_bucket. destruct (named u) as [n |].
  - destruct (d !! "users") as [[| | | | | | users] |] eqn:Hu; try done.
    intros _. rewrite lookup_insert_eq. by rewrite !insert_insert_eq.
  - intros _. by rewrite insert_insert_eq.
Qed.

Lemma put_bucket_same (d : gmap string json) (u : option string) (b : json) :
  in_store d u b → put_bucket d u b = d.
Proof.
  unfold in_store, _user_bucket, put_bucket. destruct (named u) as [n |].
  - destruct (d !! "users") as [[| | | | | | users] |] eqn:Hu; try done.
    destruct (users !! n) as [b0 |] eqn:Hn.
    + intros [= <-]. rewrite (insert_id users n b0 Hn). by apply insert_id.
    + intros [= _ Hd]. exfalso.
      apply (f_equal (λ m, m !! "users")) in Hd. cbn in Hd.
      rewrite lookup_insert_eq, Hu in Hd. injection Hd as Hd.
      apply (f_equal (λ m, m !! n)) in Hd. cbn in Hd.
      by rewrite lookup_insert_eq, Hn in Hd.
  - destruct (d !! "guest") as [b0 |] eqn:Hg.
    + intros [= <-]. by apply insert_id.
    + intros [= _ Hd]. exfalso.
      apply (f_equal (λ m, m !! "guest")) in Hd.
      by rewrite lookup_insert_eq, Hg in Hd.
Qed.

Lemma bucket_scores_again (b : json) (hs b1 : json) :
  bucket_scores b = Return (hs, b1) → bucket_scores b1 = Return (hs, b1).
Proof.
  unfold bucket_scores. destruct b as [| | | | | | bm]; try done.
  destruct (bm !! "high_scores") as [h |] eqn:Hh.
  - intros [= <- <-]. by rewrite Hh.
  - intros [= <- <-]. by rewrite lookup_insert_eq.
Qed.

Lemma to_int_or_zero (v : json) (c : Z) :
  to_int int_of_str (or_zero v) = Return c →
  match to_int int_of_str v with Return z => z | Throw _ => 0 end = c.
Proof.
  unfold or_zero. destruct (truthy v) eqn:Ht; [by intros -> |].
  cbn. intros [= <-]. destruct v as [| b | z | q | s | l | m]; cbn in *; try done.
  - by destruct b.
  - apply negb_false_iff, Z.eqb_eq in Ht. by subst.
  - apply negb_false_iff, Qeq_bool_iff in Ht. unfold py_int, Qeq in *.
    cbn in Ht. assert (Qnum q = 0) as -> by lia. by apply Z.quot_0_l.
  - apply negb_false_iff, String.eqb_eq in Ht. subst s. by rewrite int_of_empty.
Qed.

Lemma set_then_get_lemma (data : gmap string json) (u : option string)
  (mode : string) (score r : Z) (data' : gmap string json) :
  set_high_score int_of_str data u mode score = Return (r, data') →
  get_high_score int_of_str data' u mode = Return (r, data')
  ∧ score ≤ r
  ∧ ∀ c d1, get_high_score int_of_str data u mode = Return (c, d1) →
            r = Z.max c score.
Proof.
  unfold set_high_score, get_high_score.
  destruct (_user_bucket data u) as [[b d1] |] eqn:Hb; [| done]. cbn.
  apply _user_bucket_in_store in Hb.
  destruct (bucket_scores b) as [[hs b1] |] eqn:Hs; [| done]. cbn.
  pose proof (bucket_scores_again _ _ _ Hs) as Hs1.
  destruct (get_or_zero hs mode) as [v |] eqn:Hv; [| done]. cbn.
  destruct (to_int int_of_str (or_zero v)) as [current |] eqn:Hc; [| done]. cbn.
  apply to_int_or_zero in Hc.
  destruct (Z.ltb_spec current score) as [Hlt | Hge].
  - destruct hs as [| | | | | | m]; try done.
    destruct b1 as [| | | | | | bm]; try done.
    intros [= <- <-].
    set (b2 := JObj (<["high_scores" := JObj (<[mode := JInt score]> m)]> bm)).
    rewrite (put_bucket_twice d1 u b (JObj bm) b2 Hb).
    pose proof (in_store_put d1 u b b2 Hb) as Hb2. unfold in_store in Hb2.
    rewrite Hb2. unfold mbind, outcome_bind. cbv beta iota.
    assert (bucket_scores b2
            = Return (JObj (<[mode := JInt score]> m), b2)) as ->.
    { subst b2. unfold bucket_scores. by rewrite lookup_insert_eq. }
    cbv beta iota. rewrite (put_bucket_twice d1 u b b2 b2 Hb).
    unfold get_or_zero. rewrite lookup_insert_eq. cbn [default to_int].
    split; [done |]. split; [lia |].
    intros c d0. destruct (to_int int_of_str v); intros [= <- _]; lia.
  - intros [= <- <-].
    pose proof (in_store_put d1 u b b1 Hb) as Hb1. unfold in_store in Hb1.
    rewrite Hb1. unfold mbind, outcome_bind. cbv beta iota. rewrite Hs1.
    cbv beta iota.
    rewrite (put_bucket_twice d1 u b b1 b1 Hb). rewrite Hv.
    split; [by destruct (to_int int_of_str v); subst |]. split; [lia |].
    intros c d0. destruct (to_int int_of_str v); intros [= <- _]; lia.
Qed.

(** X19. Writing then reading a high score agree, whatever the file
    held: when [set_high_score] returns [r] (it raises only on values
    [int] rejects), [r] is at least the score passed in and
    [get_high_score] on the store it leaves returns [r] and changes
    nothing more. *)
Theorem set_then_get (data : gmap string json) (u : option string)
  (mode : string) (score r : Z) (data' : gmap string json) :
  set_high_score int_of_str data u mode score = Return (r, data') →
  get_high_score int_of_str data' u mode = Return (r, data') ∧ score ≤ r.
Proof.
  intros H. destruct (set_then_get_lemma _ _ _ _ _ _ H) as (? & ? & _). done.
Qed.

(** X20. A high score never drops: when the store reads [c] for a
    user and mode, [set_high_score] returns [max c score], which is
    what the store reads afterwards. *)
Theorem high_score_is_max (data : gmap string json) (u : option string)
  (mode : string) (score c r : Z) (d1 data' : gmap string json) :
  get_high_score int_of_str data u mode = Return (c, d1) →
  set_high_score int_of_str data u mode score = Return (r, data') →
  r = Z.max c score ∧ c ≤ r
  ∧ get_high_score int_of_str data' u mode = Return (r, data').
Proof.
  intros Hg Hs. destruct (set_then_get_lemma _ _ _ _ _ _ Hs) as (Hget & _ & Hmax).
  specialize (Hmax c d1 Hg). split; [done |]. split; [lia | done].
Qed.

(** X21. Reading the score of a user the store does not know returns
    0 and, through [setdefault], adds a bucket without credentials for
    that name to the store. *)
Theorem get_creates_bucket (data users : gmap string json) (username : option string)
  (u mode : string) :
  named username = Some u →
  data !! "users" = Some (JObj users) → users !! u = None →
  get_high_score int_of_str data username mode
  = Return (0, <["users" := JObj (<[u := empty_bucket]> users)]> data).
Proof.
  intros Hn Hu Hnone. unfold get_high_score, _user_bucket.
  rewrite Hn, Hu, Hnone. unfold mbind, outcome_bind. cbv beta iota.
  unfold empty_bucket at 1. unfold bucket_scores.
  rewrite lookup_singleton_eq. cbv beta iota.
  unfold get_or_zero. rewrite lookup_empty. cbn [default to_int].
  f_equal. f_equal. unfold put_bucket. rewrite Hn, lookup_insert_eq.
  by rewrite !insert_insert_eq.
Qed.

(** X22. The window's cache of best scores.  If the cached best of a
    mode agrees with the store, a call of [_maybe_update_high_score]
    that returns leaves the cached best of that mode at the maximum of
    the old best and the score, still in agreement with the store, and
    the bests of the other modes untouched; for a mode that is not
    scored it changes nothing. *)
Theorem scoreboard_keeps_best (self self' : ScoreBoard) (mode : string)
  (score : Z) :
  get_high_score int_of_str (user_store self) (username self) mode
  = Return (default 0 (high_scores self !! mode), user_store self) →
  _maybe_update_high_score int_of_str self mode score = Return self' →
  username self' = username self
  ∧ (mode ∉ scored_modes → self' = self)
  ∧ (mode ∈ scored_modes →
     default 0 (high_scores self' !! mode)
     = Z.max (default 0 (high_scores self !! mode)) score
     ∧ get_high_score int_of_str (user_store self') (username self') mode
       = Return (default 0 (high_scores self' !! mode), user_store self'))
  ∧ (∀ m, m ≠ mode → high_scores self' !! m = high_scores self !! m).
Proof.
  intros Hsync. unfold _maybe_update_high_score.
  destruct (decide (mode ∈ scored_modes)) as [Hin | Hout].
  - rewrite (bool_decide_eq_true_2 _ Hin). cbn [negb].
    destruct (Z.ltb_spec (default 0 (high_scores self !! mode)) score) as [Hlt | Hge].
    + destruct (set_high_score int_of_str (user_store self) (username self) mode score)
        as [[best data] |] eqn:Hset; [| done].
      unfold mbind, outcome_bind. cbv beta iota. intros [= <-].
      cbn [username high_scores user_store].
      destruct (set_then_get_lemma _ _ _ _ _ _ Hset) as (Hget & _ & Hmax).
      specialize (Hmax _ _ Hsync).
      split; [done |]. split; [done |]. split.
      * intros _. rewrite lookup_insert_eq. cbn [default]. by split.
      * intros m Hm. by rewrite lookup_insert_ne.
    + intros [= <-]. split; [done |]. split; [done |]. split; [| done].
      intros _. split; [lia | done].
  - rewrite (bool_decide_eq_false_2 _ Hout). cbn [negb].
    intros [= <-]. by split_and!.
Qed.

End ScoreStoreFacts.

Lemma set_then_get_witness :
  ∃ data',
    set_high_score no_int_of_str sample_store (Some "alice") "snake" 12
    = Return (12, data')
    ∧ get_high_score no_int_of_str data' (Some "alice") "snake" = Return (12, data')
    ∧ 12 ≤ 12.
Proof.
  destruct (set_high_score no_int_of_str sample_store (Some "alice") "snake" 12)
    as [[r data'] |] eqn:H; [| by vm_compute in H].
  assert (r = 12) as -> by (by vm_compute in H; injection H).
  exists data'. split; [done |].
  by apply (set_then_get no_int_of_str eq_refl sample_store (Some "alice") "snake").
Defined.

Lemma high_score_is_max_witness :
  ∃ r data',
    get_high_score no_int_of_str sample_store (Some "alice") "snake"
    = Return (10, sample_store)
    ∧ set_high_score no_int_of_str sample_store (Some "alice") "snake" 7
      = Return (r, data')
    ∧ r = Z.max 10 7 ∧ 10 ≤ r
    ∧ get_high_score no_int_of_str data' (Some "alice") "snake" = Return (r, data').
Proof.
  assert (Hg : get_high_score no_int_of_str sample_store (Some "alice") "snake"
               = Return (10, sample_store)) by (vm_compute; reflexivity).
  destruct (set_high_score no_int_of_str sample_store (Some "alice") "snake" 7)
    as [[r data'] |] eqn:H; [| by vm_compute in H].
  exists r, data'. split; [exact Hg |]. split; [done |].
  exact (high_score_is_max no_int_of_str eq_refl sample_store (Some "alice") "snake"
           7 10 r sample_store data' Hg H).
Defined.

Lemma get_creates_bucket_witness :
  get_high_score no_int_of_str sample_store (Some "bob") "snake"
  = Return (0, <["users" := JObj (<["bob" := empty_bucket]>
                                    {[ "alice" := JObj {[ "salt" := JStr "00";
                                                          "hash" := JStr "ab";
                                                          "iterations" := JInt 150000;
                                                          "high_scores" :=
                                                            JObj {[ "snake" := JInt 10;
                                                                    "quiz" := JInt 5 ]} ]} ]})]>
                 sample_store).
Proof.
  apply (get_creates_bucket no_int_of_str sample_store _ (Some "bob") "bob" "snake");
    by vm_compute.
Defined.

Lemma scoreboard_keeps_best_witness :
  let self := {| username := Some "alice";
                 high_scores := {[ "snake" := 10; "quiz" := 5 ]};
                 user_store := sample_store |} in
  ∃ self',
    _maybe_update_high_score no_int_of_str self "snake" 12 = Return self'
    ∧ username self' = username self
    ∧ (("snake" : string) ∉ scored_modes → self' = self)
    ∧ (("snake" : string) ∈ scored_modes →
       default 0 (high_scores self' !! "snake")
       = Z.max (default 0 (high_scores self !! "snake")) 12
       ∧ get_high_score no_int_of_str (user_store self') (username self') "snake"
         = Return (default 0 (high_scores self' !! "snake"), user_store self'))
    ∧ (∀ m, m ≠ "snake" → high_scores self' !! m = high_scores self !! m).
Proof.
  intros self.
  destruct (_maybe_update_high_score no_int_of_str self "snake" 12)
    as [self' |] eqn:H; [| by vm_compute in H].
  exists self'. split; [done |].
  apply (scoreboard_keeps_best no_int_of_str eq_refl self self' "snake" 12);
    [vm_compute; reflexivity | exact H].
Defined.
